(** * PyImageFormatConverter: the batch converter of [main.py]

    A shallow embedding of [main.py]: POSIX [pathlib] paths as the
    script uses them, the [Config] record, [check_config], the
    [argparse] front end, the conversion task [convert] over an external
    image codec, and the main program that hands the tasks to a thread
    pool.  The image codec (PIL), the file system and the pool's
    scheduler are outside the script: they are parameters of the
    development, and every statement holds for all of them. *)

From Stdlib Require Import ZArith Ascii String Lia.
From stdpp Require Import base option list strings gmap.

Local Open Scope Z_scope.

(** ** Strings: the few [str] methods the script relies on *)

Module Str.

(** [s.startswith(p)] *)
Definition startswith (s p : string) : bool := String.prefix p s.

(** [p in s] for a non-empty [p] *)
Definition contains (p s : string) : bool :=
  match String.index 0 p s with
  | Some _ => true
  | None => false
  end.

Definition is_sep (c : ascii) : bool := Ascii.eqb c "/"%char.
Definition is_dot (c : ascii) : bool := Ascii.eqb c "."%char.

(** [s.split('/')] *)
Fixpoint split_sep (s : string) : list string :=
  match s with
  | EmptyString => [EmptyString]
  | String c s' =>
      if is_sep c then EmptyString :: split_sep s'
      else match split_sep s' with
           | h :: t => String c h :: t
           | [] => [String c EmptyString]
           end
  end.

(** no ['/'] occurs in [s] *)
Fixpoint no_sep (s : string) : bool :=
  match s with
  | EmptyString => true
  | String c s' => negb (is_sep c) && no_sep s'
  end.

(** no ['.'] occurs in [s] *)
Fixpoint no_dot (s : string) : bool :=
  match s with
  | EmptyString => true
  | String c s' => negb (is_dot c) && no_dot s'
  end.

(** ['/'.join(l)] *)
Fixpoint join_sep (l : list string) : string :=
  match l with
  | [] => EmptyString
  | [x] => x
  | x :: l' => x +:+ "/" +:+ join_sep l'
  end.

(** number of leading ['/'] *)
Fixpoint leading_seps (s : string) : nat :=
  match s with
  | String c s' => if is_sep c then S (leading_seps s') else O
  | EmptyString => O
  end.

(** [s.rfind('.')], [None] for Python's [-1] *)
Fixpoint rfind_dot (s : string) : option nat :=
  match s with
  | EmptyString => None
  | String c s' =>
      match rfind_dot s' with
      | Some i => Some (S i)
      | None => if is_dot c then Some O else None
      end
  end.

(** [s[:i]] and [s[i:]] *)
Definition take (i : nat) (s : string) : string := String.substring 0 i s.
Fixpoint drop (i : nat) (s : string) : string :=
  match i, s with
  | O, _ => s
  | S i', String _ s' => drop i' s'
  | S _, EmptyString => EmptyString
  end.

End Str.

(** ** [pathlib.PurePosixPath] *)

(** A path is its root (["" ], ["/"] or ["//"]) and its components in
    order; pathlib's [parts] is the root followed by [names]. *)
Record PurePath := mkPath { root : string; names : list string }.

Module Pathlib.

(** a component kept by the parser: neither empty nor ["."] *)
Definition keeps (x : string) : bool :=
  negb (String.eqb x "") && negb (String.eqb x ".").

(** POSIX keeps exactly two leading slashes, folds any other number
    of them to one *)
Definition parse_root (s : string) : string :=
  match Str.leading_seps s with
  | O => ""
  | 2%nat => "//"
  | _ => "/"
  end.

(** [Path(s)] *)
Definition Path (s : string) : PurePath :=
  {| root := parse_root s; names := filter (fun x => Is_true (keeps x)) (Str.split_sep s) |}.

(** [str(p)] *)
Definition str (p : PurePath) : string :=
  match root p, names p with
  | EmptyString, [] => "."
  | r, l => r +:+ Str.join_sep l
  end.

(** [p.name] *)
Definition name (p : PurePath) : string := List.last (names p) "".

(** the index [i] of the last dot when [0 < i < len(name) - 1] *)
Definition suffix_at (nm : string) : option nat :=
  match Str.rfind_dot nm with
  | Some i => if (0 <? i)%nat && (i <? String.length nm - 1)%nat then Some i else None
  | None => None
  end.

(** [p.suffix] *)
Definition suffix (p : PurePath) : string :=
  match suffix_at (name p) with
  | Some i => Str.drop i (name p)
  | None => ""
  end.

(** [p.stem] *)
Definition stem (p : PurePath) : string :=
  match suffix_at (name p) with
  | Some i => Str.take i (name p)
  | None => name p
  end.

Definition is_absolute (p : PurePath) : bool := negb (String.eqb (root p) "").

(** [p.absolute()] in a process whose working directory is [cwd] *)
Definition absolute (cwd p : PurePath) : PurePath :=
  if is_absolute p then p
  else {| root := root cwd; names := names cwd ++ names p |}.

(** what the parser produces: a known root, components without a
    separator that are neither empty nor ["."] *)
Definition wf_name (x : string) : bool := Str.no_sep x && keeps x.
Definition wf_root (r : string) : bool :=
  String.eqb r "" || String.eqb r "/" || String.eqb r "//".
Definition wf_path (p : PurePath) : bool :=
  wf_root (root p) && forallb wf_name (names p).

End Pathlib.

(** ** Exceptions *)

(** The classes the script tells apart: [except OSError] takes
    [OSError] and its subclasses, [except Exception] everything below
    [Exception]; [SystemExit] and [KeyboardInterrupt] are below
    [BaseException] only. *)
Inductive ExcClass :=
| OSError | FileNotFoundError | PermissionError | UnidentifiedImageError
| ValueError | KeyError | TypeError
| SystemExit | KeyboardInterrupt.

Definition isinstance_OSError (c : ExcClass) : bool :=
  match c with
  | OSError | FileNotFoundError | PermissionError | UnidentifiedImageError => true
  | _ => false
  end.

Definition isinstance_Exception (c : ExcClass) : bool :=
  match c with
  | SystemExit | KeyboardInterrupt => false
  | _ => true
  end.

(** an exception object: its class and [str(ex)] *)
Record PyExc := mkExc { exc_class : ExcClass; exc_str : string }.

(** how a statement ends: normally with a value, or by raising *)
Inductive Completion (A : Type) :=
| Normal (a : A)
| Raised (e : PyExc).
Arguments Normal {A} a.
Arguments Raised {A} e.

(** ** Configuration *)

Record Config := mkConfig {
  NB_WORKERS : Z;
  DESTINATION_FOLDER : PurePath;
  DESTINATION_FILE_TYPE : string;
  SOURCE_FOLDER : PurePath;
  SOURCE_FILE_TYPE : string;
  IS_RECURSIVE : bool;
  IMAGE_QUALITY : Z;
  OPTIMIZE : bool;
  PROGRESSIVE : bool
}.

(** ** [argparse]: the parser built by [configure_argument_parser]

    The parser of the standard library as CPython 3.8 to 3.11 run it,
    restricted to what lines 59-73 declare: four positional arguments,
    five options and the help option; exact, abbreviated and
    [--opt=value] option strings, clustered [-h], the separator [--].
    Strings are ASCII.  Messages are cut to their first words. *)

Module Argparse.

(** [vars(parser.parse_args())]: one entry per [add_argument] *)
Record Namespace := mkNamespace {
  source : PurePath;
  dest : PurePath;
  file_type : string;
  dest_file_type : string;
  nb_workers : Z;
  optimize : bool;
  progressive : bool;
  quality : Z;
  recursive : bool
}.

(** what [parse_args] does: a namespace, or [SystemExit] with the
    status of a usage error (2) or of [--help] (0).  Status 1 is the
    end of a run whose namespace holds a list, see [after_separator]. *)
Inductive Parsed :=
| Args (ns : Namespace)
| Exit (status : Z) (message : string).

Definition is_digit (c : ascii) : bool :=
  let n := nat_of_ascii c in (48 <=? n)%nat && (n <=? 57)%nat.

Fixpoint all_digits (s : string) : bool :=
  match s with
  | EmptyString => true
  | String c s' => is_digit c && all_digits s'
  end.

(** the value of a literal, its underscores passed over *)
Fixpoint digits_value (s : string) (acc : Z) : Z :=
  match s with
  | EmptyString => acc
  | String c s' =>
      if is_digit c then digits_value s' (10 * acc + Z.of_nat (nat_of_ascii c - 48))
      else digits_value s' acc
  end.

(** the white space [int] strips: tab to carriage return, and space *)
Definition is_space (c : ascii) : bool :=
  let n := nat_of_ascii c in ((9 <=? n)%nat && (n <=? 13)%nat) || (n =? 32)%nat.

Fixpoint lstrip (s : string) : string :=
  match s with
  | EmptyString => EmptyString
  | String c s' => if is_space c then lstrip s' else s
  end.

Fixpoint rstrip (s : string) : string :=
  match s with
  | EmptyString => EmptyString
  | String c s' =>
      let r := rstrip s' in
      if is_space c && String.eqb r "" then EmptyString else String c r
  end.

(** digits, with single underscores between two of them *)
Fixpoint digit_groups (s : string) (after_digit : bool) : bool :=
  match s with
  | EmptyString => after_digit
  | String c s' =>
      if is_digit c then digit_groups s' true
      else Ascii.eqb c "_" && after_digit && digit_groups s' false
  end.

(** [int(s)]: a decimal literal with an optional sign, white space
    around it stripped; [None] stands for [ValueError] *)
Definition int_of_string (s : string) : option Z :=
  match rstrip (lstrip s) with
  | EmptyString => None
  | String c s' =>
      if Ascii.eqb c "-" then
        if digit_groups s' false then Some (- digits_value s' 0) else None
      else if Ascii.eqb c "+" then
        if digit_groups s' false then Some (digits_value s' 0) else None
      else if digit_groups (String c s') false then Some (digits_value (String c s') 0) else None
  end.

(** digits, then optionally a point and more digits *)
Fixpoint number_tail (s : string) (seen_digit : bool) : bool :=
  match s with
  | EmptyString => seen_digit
  | String c s' =>
      if is_digit c then number_tail s' true
      else if Ascii.eqb c "." then negb (String.eqb s' "") && all_digits s'
      else false
  end.

(** argparse's [_negative_number_matcher]: [-\d+] or [-\d*\.\d+] *)
Definition looks_negative_number (t : string) : bool :=
  match t with
  | String c s' => Ascii.eqb c "-" && number_tail s' false
  | EmptyString => false
  end.

(** assignments to the namespace *)
Definition set_nb_workers (ns : Namespace) (n : Z) : Namespace :=
  mkNamespace (source ns) (dest ns) (file_type ns) (dest_file_type ns)
              n (optimize ns) (progressive ns) (quality ns) (recursive ns).
Definition set_optimize (ns : Namespace) (b : bool) : Namespace :=
  mkNamespace (source ns) (dest ns) (file_type ns) (dest_file_type ns)
              (nb_workers ns) b (progressive ns) (quality ns) (recursive ns).
Definition set_progressive (ns : Namespace) (b : bool) : Namespace :=
  mkNamespace (source ns) (dest ns) (file_type ns) (dest_file_type ns)
              (nb_workers ns) (optimize ns) b (quality ns) (recursive ns).
Definition set_quality (ns : Namespace) (q : Z) : Namespace :=
  mkNamespace (source ns) (dest ns) (file_type ns) (dest_file_type ns)
              (nb_workers ns) (optimize ns) (progressive ns) q (recursive ns).
Definition set_recursive (ns : Namespace) (b : bool) : Namespace :=
  mkNamespace (source ns) (dest ns) (file_type ns) (dest_file_type ns)
              (nb_workers ns) (optimize ns) (progressive ns) (quality ns) b.
Definition set_positionals (ns : Namespace) (a b c d : string) : Namespace :=
  mkNamespace (Pathlib.Path a) (Pathlib.Path b) c d
              (nb_workers ns) (optimize ns) (progressive ns) (quality ns) (recursive ns).

(** [os.cpu_count() or 1] *)
Definition cpu_count_or_1 (cpu_count : option Z) : Z :=
  match cpu_count with
  | Some n => if Z.eqb n 0 then 1 else n
  | None => 1
  end.

(** the [default=] of every argument (lines 64-73) *)
Definition defaults (cpu_count : option Z) : Namespace :=
  {| source := Pathlib.Path ""; dest := Pathlib.Path "";
     file_type := ""; dest_file_type := "";
     nb_workers := Z.min 32 (cpu_count_or_1 cpu_count + 4);
     optimize := true;
     progressive := true;
     quality := 80;
     recursive := true |}.

Definition usage (message : string) : Parsed := Exit 2 message.

(** what an option does when it is met *)
Inductive Action :=
| StoreInt (set : Namespace -> Z -> Namespace)
| StoreTrue (set : Namespace -> bool -> Namespace)
| StoreConst (set : Namespace -> Z -> Namespace) (const : Z)
| Help.

(** the options of lines 64-73, after the [-h], [--help] every parser
    has: [--nb-workers] has [type=int] and takes one argument,
    [--quality] is declared with [action='store_const', const=80] and
    takes none *)
Definition optionals : list (string * Action) :=
  [("-h", Help);
   ("--help", Help);
   ("--nb-workers", StoreInt set_nb_workers);
   ("--optimize", StoreTrue set_optimize);
   ("--progressive", StoreTrue set_progressive);
   ("--quality", StoreConst set_quality 80);
   ("--recursive", StoreTrue set_recursive)].

Fixpoint find_action (o : string) (table : list (string * Action)) : option Action :=
  match table with
  | [] => None
  | (k, a) :: table' => if String.eqb o k then Some a else find_action o table'
  end.

(** [s.split('=', 1)] *)
Fixpoint split_eq (s : string) : string * option string :=
  match s with
  | EmptyString => (EmptyString, None)
  | String c s' =>
      if Ascii.eqb c "=" then (EmptyString, Some s')
      else let '(a, b) := split_eq s' in (String c a, b)
  end.

Fixpoint has_space (s : string) : bool :=
  match s with
  | EmptyString => false
  | String c s' => Ascii.eqb c " " || has_space s'
  end.

(** how [_parse_optional] reads one token *)
Inductive Token :=
| Positional
| Optional (a : Action) (explicit_arg : option string)
| Ambiguous
| Unrecognized.

(** [_get_option_tuples]: a token in two dashes stands for every
    option it is a prefix of; a token in one dash for the short option
    of its first two characters, the rest being its argument *)
Definition option_tuples (t : string) : list Token :=
  if Str.startswith t "--" then
    let '(prefix, explicit_arg) := split_eq t in
    flat_map (fun '(k, a) => if Str.startswith k prefix then [Optional a explicit_arg] else [])
             optionals
  else
    flat_map (fun '(k, a) => if String.eqb k (Str.take 2 t)
                             then [Optional a (Some (Str.drop 2 t))]
                             else if Str.startswith k t then [Optional a None] else [])
             optionals.

Definition parse_optional (t : string) : Token :=
  if negb (Str.startswith t "-") then Positional
  else match find_action t optionals with
       | Some a => Optional a None
       | None =>
           if (String.length t =? 1)%nat then Positional
           else
             let '(o, explicit_arg) := split_eq t in
             match explicit_arg, find_action o optionals with
             | Some v, Some a => Optional a (Some v)
             | _, _ =>
                 match option_tuples t with
                 | _ :: _ :: _ => Ambiguous
                 | [tok] => tok
                 | [] =>
                     if looks_negative_number t then Positional
                     else if has_space t then Positional
                     else Unrecognized
                 end
             end
       end.

(** a token that can be the argument of an option *)
Definition is_argument (t : string) : bool :=
  negb (String.eqb t "--")
  && match parse_optional t with Positional => true | _ => false end.

(** the end of the command line: four positional strings are
    required, anything left over is an error *)
Definition finish (ns : Namespace) (pos : list string) (extras : bool) : Parsed :=
  match pos with
  | [a; b; c; d] =>
      if extras then usage "unrecognized arguments" else Args (set_positionals ns a b c d)
  | _ :: _ :: _ :: _ :: _ :: _ => usage "unrecognized arguments"
  | _ => usage "the following arguments are required"
  end.

(** a positional takes one string; [_get_values] removes a [--] from
    what it takes, so that a positional whose string is [--] is left
    with the list [[]] *)
Definition no_separator (t : string) : bool := negb (String.eqb t "--").

(** The strings [rest] behind the separator are all positional.  The
    separator goes with the positional in front of it ([trailing]) or
    else with the one behind it, whose string is then kept as it is;
    with no positional to go with, it is left over.  Where a
    positional is left with the list [[]], [parse_args] returns and
    [Config] stores the list: its first use (line 38, 40, 42 or 44)
    raises [AttributeError], or line 43 exits first, and the run ends
    with status 1 before the first discovery.  That end is given
    here. *)
Definition after_separator (ns : Namespace) (pos : list string) (trailing : bool)
    (rest : list string) (extras : bool) : Parsed :=
  match rest with
  | [] => if trailing then finish ns pos extras
          else match finish ns pos extras with
               | Args _ => usage "unrecognized arguments"
               | failed => failed
               end
  | t :: rest' =>
      match finish ns (pos ++ rest) extras with
      | Args ns' =>
          if forallb no_separator (if trailing then rest else rest') then Args ns'
          else Exit 1 "AttributeError: 'list' object has no attribute"
      | failed => failed
      end
  end.

Definition store_int (set : Namespace -> Z -> Namespace) (ns : Namespace) (v : string)
  : option Namespace :=
  match int_of_string v with
  | Some n => Some (set ns n)
  | None => None
  end.

Fixpoint all_h (s : string) : bool :=
  match s with
  | EmptyString => true
  | String c s' => Ascii.eqb c "h" && all_h s'
  end.

(** [-hh]: the argument stuck to the short option [-h], which takes
    none, is read as further short options *)
Definition help_cluster (t v : string) : bool :=
  negb (Str.startswith t "--") && negb (String.eqb v "") && all_h v.

(** The tokens are read left to right; [pos] collects the positional
    strings, [extras] records an unrecognized option.  After [--]
    every token is positional. *)
Fixpoint scan (toks : list string) (ns : Namespace) (pos : list string) (extras : bool)
  : Parsed :=
  match toks with
  | [] => finish ns pos extras
  | t :: rest =>
      if String.eqb t "--" then after_separator ns pos false rest extras
      else
        match parse_optional t with
        | Positional =>
            match rest with
            | t' :: rest' =>
                if String.eqb t' "--" then after_separator ns (pos ++ [t]) true rest' extras
                else scan rest ns (pos ++ [t]) extras
            | [] => scan rest ns (pos ++ [t]) extras
            end
        | Unrecognized => scan rest ns pos true
        | Ambiguous => usage "ambiguous option"
        | Optional Help None => Exit 0 "usage"
        | Optional Help (Some v) =>
            if help_cluster t v then Exit 0 "usage" else usage "ignored explicit argument"
        | Optional (StoreTrue set) None => scan rest (set ns true) pos extras
        | Optional (StoreConst set const) None => scan rest (set ns const) pos extras
        | Optional (StoreInt set) (Some v) =>
            match store_int set ns v with
            | Some ns' => scan rest ns' pos extras
            | None => usage "invalid int value"
            end
        | Optional (StoreInt set) None =>
            match rest with
            | v :: rest' =>
                if is_argument v then
                  match store_int set ns v with
                  | Some ns' => scan rest' ns' pos extras
                  | None => usage "invalid int value"
                  end
                else usage "expected one argument"
            | [] => usage "expected one argument"
            end
        | Optional _ (Some _) => usage "ignored explicit argument"
        end
  end.

(** the tokens in front of the first [--] *)
Fixpoint before_separator (toks : list string) : list string :=
  match toks with
  | [] => []
  | t :: rest => if String.eqb t "--" then [] else t :: before_separator rest
  end.

Definition is_ambiguous (t : string) : bool :=
  match parse_optional t with Ambiguous => true | _ => false end.

(** [parse_args]: every token is classified before the first action
    runs, so an ambiguous abbreviation is an error wherever it stands *)
Definition parse_args (cpu_count : option Z) (argv : list string) : Parsed :=
  if existsb is_ambiguous (before_separator argv) then usage "ambiguous option"
  else scan argv (defaults cpu_count) [] false.

(** the three [store_true] destinations all hold [True] *)
Definition flags_on (ns : Namespace) : Prop :=
  optimize ns = true /\ progressive ns = true /\ recursive ns = true.

(** the action leaves a property of the namespace in place *)
Definition preserves (P : Namespace -> Prop) (a : Action) : Prop :=
  match a with
  | StoreInt set => forall ns n, P ns -> P (set ns n)
  | StoreTrue set => forall ns, P ns -> P (set ns true)
  | StoreConst set const => forall ns, P ns -> P (set ns const)
  | Help => True
  end.

(** the action leaves the quality of the namespace at 80 *)
Definition keeps_quality (a : Action) : Prop :=
  match a with
  | StoreInt set => forall ns n, quality (set ns n) = quality ns
  | StoreTrue set => forall ns b, quality (set ns b) = quality ns
  | StoreConst set const => forall ns, quality (set ns const) = 80
  | Help => True
  end.

End Argparse.

(** [Config(args)], lines 15-24 *)
Definition Config_init (args : Argparse.Namespace) : Config :=
  {| NB_WORKERS := Argparse.nb_workers args;
     DESTINATION_FOLDER := Argparse.dest args;
     SOURCE_FOLDER := Argparse.source args;
     DESTINATION_FILE_TYPE := Argparse.dest_file_type args;
     SOURCE_FILE_TYPE := Argparse.file_type args;
     IMAGE_QUALITY := Argparse.quality args;
     OPTIMIZE := Argparse.optimize args;
     PROGRESSIVE := Argparse.progressive args;
     IS_RECURSIVE := Argparse.recursive args |}.

(** [configure_argument_parser()] on the command line [argv] of a host
    with [cpu_count] processors: the configuration, or the exit that
    [parse_args] makes (status 0 or 2), or the end (status 1) of a run
    whose configuration holds a list *)
Definition configure_argument_parser (cpu_count : option Z) (argv : list string)
  : Config + (Z * string) :=
  match Argparse.parse_args cpu_count argv with
  | Argparse.Args args => inl (Config_init args)
  | Argparse.Exit status message => inr (status, message)
  end.

(** ** The world outside the script *)

Section Converter.

(** [Image] is PIL's image object, [World] the state of everything
    the script does not own (files, the codec's buffers). *)
Context {Image World : Type}.

(** What the script calls, in the order the calls are made. *)
Inductive Event :=
| EvGlob (pattern : string) (recursive : bool)
| EvOpen (p : PurePath)
| EvSave (im : Image) (dest : PurePath) (format : option string)
         (quality : Z) (optimize progressive : bool)
| EvConvert (im : Image) (mode : string)
| EvClose (im : Image)
| EvWrite (line : string).

Record Env := mkEnv {
  (** [Image.open(p)] *)
  pil_open : PurePath -> World -> Completion Image * World;
  (** [im.save(dest, format, quality=, optimize=, progressive=)] *)
  pil_save : Image -> PurePath -> option string -> Z -> bool -> bool ->
             World -> Completion unit * World;
  (** [im.convert(mode)] *)
  pil_convert : Image -> string -> World -> Completion Image * World;
  (** [im.__exit__] *)
  pil_close : Image -> World -> World;
  (** [Image.registered_extensions()] *)
  registered_extensions : gmap string string;
  (** [p.exists()], [p.is_dir()], [glob(pattern, recursive=)] *)
  path_exists : PurePath -> World -> bool;
  path_is_dir : PurePath -> World -> bool;
  fs_glob : string -> bool -> World -> list string;
  (** [os.getcwd()] *)
  getcwd : PurePath
}.

Variable env : Env.

(** *** Statements: state passing with exceptions and a call log *)

Record State := mkState { world : World; log : list Event }.

Definition Stmt (A : Type) : Type := State -> Completion A * State.

Definition ret {A} (a : A) : Stmt A := fun s => (Normal a, s).

Definition bind {A B} (m : Stmt A) (k : A -> Stmt B) : Stmt B :=
  fun s => match m s with
           | (Normal a, s') => k a s'
           | (Raised e, s') => (Raised e, s')
           end.

Definition raise {A} (e : PyExc) : Stmt A := fun s => (Raised e, s).

Definition emit (ev : Event) (s : State) : State :=
  {| world := world s; log := log s ++ [ev] |}.

Notation "'let!' x ':=' m 'in' k" := (bind m (fun x => k))
  (at level 10, x name, m at level 100, k at level 200).
Notation "m ;;; k" := (bind m (fun _ => k))
  (at level 100, k at level 200, right associativity).

(** [try: body  except ...:] the handlers are tried in order by
    [handlers]; [None] means no clause matches and the exception goes
    on.  An exception raised inside a handler is not offered to the
    sibling clauses. *)
Definition try_except {A} (body : Stmt A) (handlers : PyExc -> option (Stmt A)) : Stmt A :=
  fun s => match body s with
           | (Normal a, s') => (Normal a, s')
           | (Raised e, s') =>
               match handlers e with
               | Some h => h s'
               | None => (Raised e, s')
               end
           end.

(** *** The calls

    The codec calls may raise.  [tqdm.write] and [glob] are taken to
    return.  [exists()] and [is_dir()] are taken to answer: pathlib
    answers [False] for a path that is missing or cannot be one, and
    raises the [OSError] of a query that fails otherwise (a name too
    long, a folder that may not be searched); a world with such a
    path is outside this model. *)

Definition tqdm_write (line : string) : Stmt unit :=
  fun s => (Normal tt, emit (EvWrite line) s).

Definition Image_open (p : PurePath) : Stmt Image :=
  fun s => let '(r, w) := pil_open env p (world s) in
           (r, {| world := w; log := log s ++ [EvOpen p] |}).

Definition Image_save (im : Image) (dest : PurePath) (format : option string)
           (quality : Z) (optimize progressive : bool) : Stmt unit :=
  fun s => let '(r, w) := pil_save env im dest format quality optimize progressive (world s) in
           (r, {| world := w; log := log s ++ [EvSave im dest format quality optimize progressive] |}).

Definition Image_convert (im : Image) (mode : string) : Stmt Image :=
  fun s => let '(r, w) := pil_convert env im mode (world s) in
           (r, {| world := w; log := log s ++ [EvConvert im mode] |}).

Definition exists_ (p : PurePath) : Stmt bool :=
  fun s => (Normal (path_exists env p (world s)), s).

Definition is_dir (p : PurePath) : Stmt bool :=
  fun s => (Normal (path_is_dir env p (world s)), s).

Definition glob (pattern : string) (recursive : bool) : Stmt (list string) :=
  fun s => (Normal (fs_glob env pattern recursive (world s)), emit (EvGlob pattern recursive) s).

(** [with im as image: body]: [__exit__] closes [im] however the
    body ends, and lets an exception through. *)
Definition with_image {A} (im : Image) (body : Stmt A) : Stmt A :=
  fun s => let '(r, s') := body s in
           (r, {| world := pil_close env im (world s'); log := log s' ++ [EvClose im] |}).

(** *** The conversion task *)

Definition __handle_jpg_transparency (image : Image) : Stmt Image :=
  Image_convert image "RGB".

(** line 83 *)
Definition dest_path_of (source_file_path : PurePath) (config : Config) : PurePath :=
  Pathlib.Path (Pathlib.str (Pathlib.absolute (getcwd env) (DESTINATION_FOLDER config))
                +:+ "/" +:+ Pathlib.stem source_file_path
                +:+ DESTINATION_FILE_TYPE config).

Definition exists_warning (dest_path : PurePath) : string :=
  "Warning: file " +:+ Pathlib.str dest_path +:+ " already exists".

Definition transparency_warning (source_file_path : PurePath) (ex : PyExc) : string :=
  "Warning: file " +:+ Pathlib.str source_file_path
  +:+ " has a transparency layer, message: " +:+ exc_str ex.

Definition error_line (source_file_path : PurePath) (ex : PyExc) : string :=
  "Error: file: " +:+ Pathlib.str source_file_path +:+ ", message: " +:+ exc_str ex.

(** lines 82-103.  [extension_name] is bound by the first statement
    of the [try] block, a dictionary lookup that does not raise; both
    saves read it. *)
Definition convert (source_file_path : PurePath) (config : Config) : Stmt unit :=
  let dest_path := dest_path_of source_file_path config in
  let! image := Image_open source_file_path in
  with_image image
    (let extension_name := registered_extensions env !! Pathlib.suffix dest_path in
     try_except
       (let! found := exists_ dest_path in
        (if found then tqdm_write (exists_warning dest_path) else ret tt) ;;;
        Image_save image dest_path extension_name
                   (IMAGE_QUALITY config) (OPTIMIZE config) (PROGRESSIVE config))
       (fun ex =>
          if isinstance_OSError (exc_class ex) then
            Some (let! image' :=
                    (if Str.contains "RGBA" (exc_str ex)
                     then (tqdm_write (transparency_warning source_file_path ex) ;;;
                           __handle_jpg_transparency image)
                     else ret image) in
                  Image_save image' dest_path extension_name
                             (IMAGE_QUALITY config) (OPTIMIZE config) (PROGRESSIVE config))
          else if isinstance_Exception (exc_class ex) then
            Some (tqdm_write (error_line source_file_path ex))
          else None)).

(** *** Validation of the configuration *)

(** lines 38-39 and 40-41: the extension with its leading dot *)
Definition normalize_ext (t : string) : string :=
  if negb (Str.startswith t ".") then "." +:+ t else t.

Definition set_SOURCE_FILE_TYPE (config : Config) (t : string) : Config :=
  mkConfig (NB_WORKERS config) (DESTINATION_FOLDER config) (DESTINATION_FILE_TYPE config)
           (SOURCE_FOLDER config) t (IS_RECURSIVE config)
           (IMAGE_QUALITY config) (OPTIMIZE config) (PROGRESSIVE config).

Definition set_DESTINATION_FILE_TYPE (config : Config) (t : string) : Config :=
  mkConfig (NB_WORKERS config) (DESTINATION_FOLDER config) t
           (SOURCE_FOLDER config) (SOURCE_FILE_TYPE config) (IS_RECURSIVE config)
           (IMAGE_QUALITY config) (OPTIMIZE config) (PROGRESSIVE config).

(** [raise SystemExit(message)] *)
Definition raise_SystemExit {A} (message : string) : Stmt A :=
  raise (mkExc SystemExit message).

(** [ext in Image.registered_extensions().keys()] *)
Definition is_registered (ext : string) : bool :=
  bool_decide (is_Some (registered_extensions env !! ext)).

(** the pattern of lines 50 and 109 *)
Definition glob_pattern (folder : PurePath) (ext : string) : string :=
  Pathlib.str folder +:+ "/**/*" +:+ ext.

(** [check_config] updates the configuration object in place; here
    it returns the updated object. *)
Definition check_config (config : Config) : Stmt Config :=
  let config := set_SOURCE_FILE_TYPE config (normalize_ext (SOURCE_FILE_TYPE config)) in
  let config := set_DESTINATION_FILE_TYPE config (normalize_ext (DESTINATION_FILE_TYPE config)) in
  let! src_is_dir := is_dir (SOURCE_FOLDER config) in
  if negb src_is_dir then
    raise_SystemExit "Error: Source path does not lead to a directory"
  else
  let! dst_is_dir := is_dir (DESTINATION_FOLDER config) in
  if negb dst_is_dir then
    raise_SystemExit "Error: Destination path does not lead to a directory"
  else
  let! src_exists := exists_ (SOURCE_FOLDER config) in
  if negb src_exists then
    raise_SystemExit "Error: Source folder does not exist"
  else
  let! dst_exists := exists_ (DESTINATION_FOLDER config) in
  if negb dst_exists then
    raise_SystemExit "Error: Destination folder does not exist"
  else
  let! found := glob (glob_pattern (SOURCE_FOLDER config) (SOURCE_FILE_TYPE config))
                     (IS_RECURSIVE config) in
  if bool_decide (found = []) then
    raise_SystemExit ("Error: Source folder does not contain any file of type "
                      +:+ SOURCE_FILE_TYPE config)
  else if negb (is_registered (DESTINATION_FILE_TYPE config)) then
    raise_SystemExit "Error: Desired conversion format is not supported"
  else if negb (is_registered (SOURCE_FILE_TYPE config)) then
    raise_SystemExit "Error: Source image format is not supported"
  else ret config.

(** *** The thread pool and the main program *)

(** A future: the call it was submitted for and how that call ended.
    The worker stores an exception of the call in the future; it is
    raised again only by [Future.result()]. *)
Record Future := mkFuture { fut_file : PurePath; fut_outcome : Completion unit }.

(** The worker's wrapper around a submitted call: whatever the call
    raises is kept in the future, the worker goes on. *)
Definition work_item (config : Config) (file : PurePath) (s : State) : Future * State :=
  let '(r, s') := convert file config s in (mkFuture file r, s').

(** The pool runs the submitted calls until none is pending.  Which
    pending call completes next is the scheduler's choice [pick]
    (taken modulo the number of pending calls); a call runs here as
    one step, where the workers of the real pool take turns between
    the calls of different tasks.  The futures come out in completion
    order, as [as_completed] yields them. *)
Fixpoint run_pool (pick : nat -> nat) (n : nat) (config : Config)
         (pending : list PurePath) (completed : list Future) (s : State)
  : list Future * State :=
  match n with
  | O => (completed, s)
  | S n' =>
      let i := (pick (length completed) mod length pending)%nat in
      match pending !! i with
      | None => (completed, s)
      | Some file =>
          let '(fut, s') := work_item config file s in
          run_pool pick n' config (delete i pending) (completed ++ [fut]) s'
      end
  end.

(** [ThreadPoolExecutor(max_workers=n)] refuses [n <= 0] *)
Definition ThreadPoolExecutor (max_workers : Z) : Stmt unit :=
  if max_workers <=? 0 then raise (mkExc ValueError "max_workers must be greater than 0")
  else ret tt.

(** lines 111-113: submit every file, collect the futures as they
    complete, leave the [with] block once all are done.  The list
    built from [as_completed] is dropped: no [result()] is called. *)
Definition dispatch (pick : nat -> nat) (config : Config) (all_files : list PurePath)
  : Stmt (list Future) :=
  ThreadPoolExecutor (NB_WORKERS config) ;;;
  fun s => let '(futures, s') := run_pool pick (length all_files) config all_files [] s in
           (Normal futures, s').

(** what the operating system sees of a run *)
Record Process := mkProcess {
  exit_status : Z;
  (** what the interpreter prints for the exception that ended the
      run: the message of [SystemExit], the last line of a traceback *)
  uncaught : list string;
  calls : list Event;
  futures : list Future;
  final_world : World
}.

(** the body of the script after the command line is parsed *)
Definition script (pick : nat -> nat) (config : Config) : Stmt (list Future) :=
  let! config := check_config config in
  let! found := glob (glob_pattern (Pathlib.absolute (getcwd env) (SOURCE_FOLDER config))
                                   (SOURCE_FILE_TYPE config))
                     (IS_RECURSIVE config) in
  let all_files := map Pathlib.Path found in
  let! futures := dispatch pick config all_files in
  tqdm_write "Done." ;;;
  ret futures.

(** [python main.py argv]: an exception that reaches the top ends the
    process with status 1 ([SystemExit] with a message prints the
    message, any other exception its traceback); the end of the
    script is status 0. *)
Definition main (cpu_count : option Z) (pick : nat -> nat) (argv : list string) (w : World)
  : Process :=
  match configure_argument_parser cpu_count argv with
  | inr (status, message) => mkProcess status [message] [] [] w
  | inl config =>
      match script pick config {| world := w; log := [] |} with
      | (Normal futs, s) => mkProcess 0 [] (log s) futs (world s)
      | (Raised e, s) => mkProcess 1 [exc_str e] (log s) [] (world s)
      end
  end.

(** a task started on world [w] with an empty log *)
Definition run {A} (m : Stmt A) (w : World) : Completion A * State :=
  m {| world := w; log := [] |}.

(** *** What a run is observed by *)

(** the [save] of lines 90-93 and of lines 98-101, on image [im] *)
Definition codec_save (im : Image) (source_file_path : PurePath) (config : Config)
  : World -> Completion unit * World :=
  let dest_path := dest_path_of source_file_path config in
  pil_save env im dest_path (registered_extensions env !! Pathlib.suffix dest_path)
           (IMAGE_QUALITY config) (OPTIMIZE config) (PROGRESSIVE config).

(** and its entry in the log *)
Definition save_call (im : Image) (source_file_path : PurePath) (config : Config) : Event :=
  let dest_path := dest_path_of source_file_path config in
  EvSave im dest_path (registered_extensions env !! Pathlib.suffix dest_path)
         (IMAGE_QUALITY config) (OPTIMIZE config) (PROGRESSIVE config).

(** the line written when the destination is found to exist *)
Definition exists_note (source_file_path : PurePath) (config : Config) (w : World)
  : list Event :=
  let dest_path := dest_path_of source_file_path config in
  if path_exists env dest_path w then [EvWrite (exists_warning dest_path)] else [].

(** the events a task can add to the log *)
Definition task_event (source_file_path : PurePath) (config : Config) (ev : Event) : Prop :=
  match ev with
  | EvGlob _ _ => False
  | EvOpen p => p = source_file_path
  | EvSave _ dest format quality optimize progressive =>
      dest = dest_path_of source_file_path config
      /\ format = registered_extensions env !! Pathlib.suffix dest
      /\ quality = IMAGE_QUALITY config
      /\ optimize = OPTIMIZE config
      /\ progressive = PROGRESSIVE config
  | EvConvert _ mode => mode = "RGB"
  | EvClose _ => True
  | EvWrite _ => True
  end.

Definition is_save (ev : Event) : bool :=
  match ev with EvSave _ _ _ _ _ _ => true | _ => false end.

Definition is_glob (ev : Event) : bool :=
  match ev with EvGlob _ _ => true | _ => false end.

Definition is_open (ev : Event) : bool :=
  match ev with EvOpen _ => true | _ => false end.

Definition is_close (ev : Event) : bool :=
  match ev with EvClose _ => true | _ => false end.

Definition is_convert (ev : Event) : bool :=
  match ev with EvConvert _ _ => true | _ => false end.

Definition is_write (ev : Event) : bool :=
  match ev with EvWrite _ => true | _ => false end.

(** the events of a log that satisfy [f], in order *)
Definition only (f : Event -> bool) (l : list Event) : list Event :=
  List.filter f l.

(** the configuration as [check_config] leaves it *)
Definition normalized (config : Config) : Config :=
  set_DESTINATION_FILE_TYPE
    (set_SOURCE_FILE_TYPE config (normalize_ext (SOURCE_FILE_TYPE config)))
    (normalize_ext (DESTINATION_FILE_TYPE config)).

(** the discovery call of [check_config], line 50 *)
Definition validation_glob (config : Config) : Event :=
  EvGlob (glob_pattern (SOURCE_FOLDER config) (normalize_ext (SOURCE_FILE_TYPE config)))
         (IS_RECURSIVE config).

(** the discovery call of the main program, line 109 *)
Definition discovery_glob (config : Config) : Event :=
  EvGlob (glob_pattern (Pathlib.absolute (getcwd env) (SOURCE_FOLDER config))
                       (normalize_ext (SOURCE_FILE_TYPE config)))
         (IS_RECURSIVE config).

(** the files the main program finds in world [w] *)
Definition discovered (config : Config) (w : World) : list PurePath :=
  map Pathlib.Path
      (fs_glob env (glob_pattern (Pathlib.absolute (getcwd env) (SOURCE_FOLDER config))
                                 (normalize_ext (SOURCE_FILE_TYPE config)))
               (IS_RECURSIVE config) w).

(** the future holds the completion of a call of [convert] on its file *)
Definition ran_as (config : Config) (fut : Future) : Prop :=
  exists s, fut_outcome fut = (convert (fut_file fut) config s).1.

(** a discovery call looks for files ending in [ext] *)
Definition discovers_with (ext : string) (ev : Event) : Prop :=
  match ev with
  | EvGlob pattern _ => exists folder, pattern = glob_pattern folder ext
  | _ => True
  end.

(** what the call recorded as [ev] does to the world *)
Definition effect (ev : Event) (w : World) : World :=
  match ev with
  | EvGlob _ _ => w
  | EvOpen p => (pil_open env p w).2
  | EvSave im dest format quality optimize progressive =>
      (pil_save env im dest format quality optimize progressive w).2
  | EvConvert im mode => (pil_convert env im mode w).2
  | EvClose im => pil_close env im w
  | EvWrite _ => w
  end.

(** the world after the calls of a log, made in the order of the log *)
Definition replay (l : list Event) (w : World) : World :=
  fold_left (fun w ev => effect ev w) l w.


(** the statement adds its calls to the log and changes the world by
    these calls only *)
Definition traced {A} (m : Stmt A) : Prop :=
  forall s, exists l, log (m s).2 = log s ++ l /\ world (m s).2 = replay l (world s).

(** the future holds the completion of a call of [convert] on its
    file, and [l] are the calls that call made *)
Definition task_ran (config : Config) (fut : Future) (l : list Event) : Prop :=
  exists w, run (convert (fut_file fut) config) w
            = (fut_outcome fut, {| world := replay l w; log := l |}).

(** [body] is made of the logs [logs]: every call of every log, the
    calls of one log in their order *)
Inductive merge_of : list (list Event) -> list Event -> Prop :=
| merge_done logs : Forall (fun l => l = []) logs -> merge_of logs []
| merge_step before ev l after body :
    merge_of (before ++ l :: after) body ->
    merge_of (before ++ (ev :: l) :: after) (ev :: body).

End Converter.

Arguments Event : clear implicits.
Arguments Env : clear implicits.
Arguments State : clear implicits.
Arguments Stmt : clear implicits.
Arguments Future : clear implicits.
Arguments Process : clear implicits.

(** ** A small world to run the script in

    A directory listing of image files, and a codec with the
    behaviour of PIL that matters here: the JPEG writer accepts no
    alpha channel and no palette, the PDF writer of older releases
    rejects RGBA with a [ValueError]. *)

Module Demo.

Record Image := mkImage { im_mode : string }.

Inductive Content :=
| Picture (mode : string)
| Garbage.

(** the files by their path, the directories, and whether the
    device has room for one more file *)
Record World := mkWorld {
  files : list (string * Content);
  dirs : list string;
  space_left : bool
}.

Fixpoint lookup_file (p : string) (l : list (string * Content)) : option Content :=
  match l with
  | [] => None
  | (q, c) :: l' => if String.eqb p q then Some c else lookup_file p l'
  end.

Definition write_file (p : string) (c : Content) (w : World) : World :=
  mkWorld (files w ++ [(p, c)]) (dirs w) (space_left w).

Definition member (x : string) (l : list string) : bool :=
  existsb (String.eqb x) l.

Definition open (p : PurePath) (w : World) : Completion Image * World :=
  match lookup_file (Pathlib.str p) (files w) with
  | Some (Picture m) => (Normal (mkImage m), w)
  | Some Garbage =>
      (Raised (mkExc UnidentifiedImageError
                     ("cannot identify image file '" +:+ Pathlib.str p +:+ "'")), w)
  | None =>
      (Raised (mkExc FileNotFoundError
                     ("[Errno 2] No such file or directory: '" +:+ Pathlib.str p +:+ "'")), w)
  end.

Definition jpeg_modes : list string := ["1"; "L"; "RGB"; "RGBX"; "CMYK"; "YCbCr"].

(** the writers check the mode first and write afterwards *)
Definition write_picture (im : Image) (dest : PurePath) (w : World)
  : Completion unit * World :=
  if space_left w
  then (Normal tt, write_file (Pathlib.str dest) (Picture (im_mode im)) w)
  else (Raised (mkExc OSError "[Errno 28] No space left on device"), w).

Definition save (im : Image) (dest : PurePath) (format : option string)
           (quality : Z) (optimize progressive : bool) (w : World)
  : Completion unit * World :=
  match format with
  | None => (Raised (mkExc ValueError ("unknown file extension: " +:+ Pathlib.suffix dest)), w)
  | Some f =>
      if String.eqb f "JPEG" then
        if member (im_mode im) jpeg_modes then write_picture im dest w
        else (Raised (mkExc OSError ("cannot write mode " +:+ im_mode im +:+ " as JPEG")), w)
      else if String.eqb f "PDF" then
        if String.eqb (im_mode im) "RGBA"
        then (Raised (mkExc ValueError "cannot save mode RGBA"), w)
        else write_picture im dest w
      else if String.eqb f "PNG" then write_picture im dest w
      else (Raised (mkExc KeyError f), w)
  end.

Definition convert_mode (im : Image) (mode : string) (w : World) : Completion Image * World :=
  (Normal (mkImage mode), w).

Definition extensions : gmap string string :=
  {[ ".jpg" := "JPEG"; ".jpeg" := "JPEG"; ".png" := "PNG"; ".pdf" := "PDF" ]}.

Fixpoint ends_with (s ext : string) : bool :=
  String.eqb s ext ||
  match s with
  | String _ s' => ends_with s' ext
  | EmptyString => false
  end.

(** [glob] for the one shape of pattern the script builds,
    [folder/**/*ext] *)
Definition glob (pattern : string) (recursive : bool) (w : World) : list string :=
  match String.index 0 "/**/*" pattern with
  | Some i =>
      let folder := Str.take i pattern +:+ "/" in
      let ext := Str.drop (i + 5) pattern in
      filter (fun f => Is_true (Str.startswith f folder && ends_with f ext)) (map fst (files w))
  | None => []
  end.

Definition env (cwd : string) : Env Image World :=
  {| pil_open := open;
     pil_save := save;
     pil_convert := convert_mode;
     pil_close := fun _ w => w;
     registered_extensions := extensions;
     path_exists := fun p w => bool_decide (is_Some (lookup_file (Pathlib.str p) (files w)))
                               || member (Pathlib.str p) (dirs w);
     path_is_dir := fun p w => member (Pathlib.str p) (dirs w);
     fs_glob := glob;
     getcwd := Pathlib.Path cwd |}.

(** two opaque pictures, one with an alpha channel, one with a
    palette, one file that is no image *)
Definition pictures : World :=
  {| files := [("/in/a.png", Picture "RGB"); ("/in/b.png", Picture "L");
               ("/in/c.png", Picture "RGBA"); ("/in/d.png", Picture "P");
               ("/in/e.png", Garbage)];
     dirs := ["/in"; "/out"];
     space_left := true |}.


(** the same on a full device *)
Definition pictures_no_space : World :=
  mkWorld (files pictures) (dirs pictures) false.


(** the same with a file of a format PIL does not know *)
Definition unknown_format : World :=
  write_file "/in/f.xyz" Garbage pictures.

Definition config (ext : string) : Config :=
  {| NB_WORKERS := 4; DESTINATION_FOLDER := Pathlib.Path "/out";
     DESTINATION_FILE_TYPE := ext; SOURCE_FOLDER := Pathlib.Path "/in";
     SOURCE_FILE_TYPE := ".png"; IS_RECURSIVE := true;
     IMAGE_QUALITY := 80; OPTIMIZE := true; PROGRESSIVE := true |}.

End Demo.

(** * Properties *)

(** ** Strings and paths *)

Section StringFacts.

Lemma append_cons c (s t : string) : String c s +:+ t = String c (s +:+ t).
Proof. reflexivity. Qed.

Lemma split_sep_nonempty s : Str.split_sep s <> [].
Proof.
  destruct s as [|c s]; simpl; [discriminate|].
  destruct (Str.is_sep c); [discriminate|].
  destruct (Str.split_sep s); discriminate.
Qed.

(** splitting distributes over a separator *)
Lemma split_sep_app a b :
  Str.split_sep (a +:+ "/" +:+ b) = Str.split_sep a ++ Str.split_sep b.
Proof.
  induction a as [|c a IH]; simpl; [reflexivity|].
  destruct (Str.is_sep c); [now rewrite IH|].
  rewrite IH.
  destruct (Str.split_sep a) as [|h t] eqn:E; [now apply split_sep_nonempty in E|].
  reflexivity.
Qed.

Lemma split_sep_single n : Str.no_sep n = true -> Str.split_sep n = [n].
Proof.
  induction n as [|c n IH]; simpl; [reflexivity|].
  intros [Hc Hn]%andb_true_iff.
  destruct (Str.is_sep c); [discriminate|].
  now rewrite (IH Hn).
Qed.

Lemma split_sep_pieces s : forallb Str.no_sep (Str.split_sep s) = true.
Proof.
  induction s as [|c s IH]; simpl; [reflexivity|].
  destruct (Str.is_sep c) eqn:Ec; [exact IH|].
  destruct (Str.split_sep s) as [|h t]; simpl in *; [now rewrite Ec|].
  now rewrite Ec.
Qed.

Lemma no_sep_app a b : Str.no_sep (a +:+ b) = Str.no_sep a && Str.no_sep b.
Proof.
  induction a as [|c a IH]; simpl; [reflexivity|].
  now rewrite IH, andb_assoc.
Qed.

Lemma no_sep_substring s : Str.no_sep s = true ->
  forall i n, Str.no_sep (String.substring i n s) = true.
Proof.
  induction s as [|c s IH]; intros H i n.
  - destruct i, n; reflexivity.
  - simpl in H. apply andb_true_iff in H as [Hc Hs].
    destruct i as [|i]; simpl.
    + destruct n as [|n]; simpl; [reflexivity|].
      now rewrite Hc, (IH Hs 0%nat n).
    + now apply IH.
Qed.

Lemma app_empty_r (s : string) : s +:+ "" = s.
Proof. induction s as [|c s IH]; [reflexivity|]. now rewrite append_cons, IH. Qed.

Lemma app_assoc_s (a b c : string) : (a +:+ b) +:+ c = a +:+ (b +:+ c).
Proof. induction a as [|x a IH]; [reflexivity|]. now rewrite !append_cons, IH. Qed.

Lemma app_eq_empty (a b : string) : a +:+ b = "" -> a = "" /\ b = "".
Proof. destruct a; simpl; [tauto|discriminate]. Qed.

Lemma keeps_filter l :
  forallb Pathlib.wf_name l = true ->
  filter (fun x => Is_true (Pathlib.keeps x)) l = l.
Proof.
  induction l as [|x l IH]; simpl; [reflexivity|].
  intros [Hx Hl]%andb_true_iff.
  unfold Pathlib.wf_name in Hx. apply andb_true_iff in Hx as [_ Hk].
  rewrite filter_cons_True by now rewrite Hk.
  now rewrite (IH Hl).
Qed.

Lemma split_join l :
  forallb Pathlib.wf_name l = true -> l <> [] ->
  Str.split_sep (Str.join_sep l) = l.
Proof.
  induction l as [|x l IH]; [congruence|].
  intros [Hx Hl]%andb_true_iff _.
  unfold Pathlib.wf_name in Hx. apply andb_true_iff in Hx as [Hs _].
  destruct l as [|y l].
  - simpl. now apply split_sep_single.
  - change (Str.join_sep (x :: y :: l)) with (x +:+ "/" +:+ Str.join_sep (y :: l)).
    rewrite split_sep_app, (split_sep_single _ Hs), IH; [reflexivity|assumption|discriminate].
Qed.

Lemma keeps_split_join l :
  forallb Pathlib.wf_name l = true ->
  filter (fun x => Is_true (Pathlib.keeps x)) (Str.split_sep (Str.join_sep l)) = l.
Proof.
  intros Hl. destruct l as [|x l]; [reflexivity|].
  rewrite split_join by (assumption || discriminate).
  now apply keeps_filter.
Qed.

Lemma wf_root_cases r :
  Pathlib.wf_root r = true -> r = "" \/ r = "/" \/ r = "//".
Proof.
  unfold Pathlib.wf_root.
  intros [[H|H]%orb_true_iff|H]%orb_true_iff; apply String.eqb_eq in H; auto.
Qed.

(** parsing what [str] prints gives the components back *)
Lemma keeps_split_str d :
  Pathlib.wf_path d = true ->
  filter (fun x => Is_true (Pathlib.keeps x)) (Str.split_sep (Pathlib.str d)) = names d.
Proof.
  destruct d as [r l]. unfold Pathlib.wf_path. cbn [root names].
  intros [Hr Hl]%andb_true_iff.
  destruct (wf_root_cases _ Hr) as [->|[->| ->]].
  - destruct l as [|x l]; [reflexivity|].
    change (Pathlib.str (mkPath "" (x :: l))) with (Str.join_sep (x :: l)).
    now apply keeps_split_join.
  - change (Pathlib.str (mkPath "/" l)) with ("" +:+ "/" +:+ Str.join_sep l).
    rewrite split_sep_app, filter_app, keeps_split_join by assumption. reflexivity.
  - change (Pathlib.str (mkPath "//" l)) with ("" +:+ "/" +:+ "" +:+ "/" +:+ Str.join_sep l).
    rewrite !split_sep_app, !filter_app, keeps_split_join by assumption. reflexivity.
Qed.

(** a component appended after a separator is one more component *)
Lemma names_Path_child d n :
  Pathlib.wf_path d = true -> Pathlib.wf_name n = true ->
  names (Pathlib.Path (Pathlib.str d +:+ "/" +:+ n)) = names d ++ [n].
Proof.
  intros Hd Hn. unfold Pathlib.Path. simpl.
  rewrite split_sep_app, filter_app, keeps_split_str by assumption.
  f_equal.
  pose proof Hn as Hn'. unfold Pathlib.wf_name in Hn'.
  apply andb_true_iff in Hn' as [Hs _].
  rewrite (split_sep_single _ Hs). apply keeps_filter. simpl. now rewrite Hn.
Qed.

Lemma leading_seps_name x rest :
  Pathlib.wf_name x = true -> Str.leading_seps (x +:+ rest) = 0%nat.
Proof.
  unfold Pathlib.wf_name, Pathlib.keeps.
  destruct x as [|c x]; [simpl; intros; discriminate|].
  simpl. intros [[Hc _]%andb_true_iff _]%andb_true_iff.
  now destruct (Str.is_sep c).
Qed.

Lemma leading_seps_join x l rest :
  Pathlib.wf_name x = true -> Str.leading_seps (Str.join_sep (x :: l) +:+ rest) = 0%nat.
Proof.
  intros Hx. destruct l as [|y l].
  - now apply leading_seps_name.
  - change (Str.join_sep (x :: y :: l)) with (x +:+ "/" +:+ Str.join_sep (y :: l)).
    rewrite app_assoc_s. now apply leading_seps_name.
Qed.

Lemma leading_seps_slash s :
  Str.leading_seps (String "/" s) = S (Str.leading_seps s).
Proof. reflexivity. Qed.

(** the root survives as long as the directory is not the bare root *)
Lemma root_Path_child d n :
  Pathlib.wf_path d = true -> names d <> [] ->
  root (Pathlib.Path (Pathlib.str d +:+ "/" +:+ n)) = root d.
Proof.
  destruct d as [r l]. unfold Pathlib.wf_path. cbn [root names].
  intros [Hr Hl]%andb_true_iff Hne.
  destruct l as [|x l]; [congruence|].
  cbn [forallb] in Hl. apply andb_true_iff in Hl as [Hx _].
  unfold Pathlib.Path, Pathlib.parse_root. cbn [root].
  destruct (wf_root_cases _ Hr) as [->|[->| ->]].
  - change (Pathlib.str (mkPath "" (x :: l))) with (Str.join_sep (x :: l)).
    now rewrite leading_seps_join.
  - change (Pathlib.str (mkPath "/" (x :: l))) with (String "/" (Str.join_sep (x :: l))).
    rewrite append_cons, leading_seps_slash. now rewrite leading_seps_join.
  - change (Pathlib.str (mkPath "//" (x :: l)))
      with (String "/" (String "/" (Str.join_sep (x :: l)))).
    rewrite !append_cons, !leading_seps_slash. now rewrite leading_seps_join.
Qed.

Lemma no_sep_last l :
  forallb Pathlib.wf_name l = true -> Str.no_sep (List.last l "") = true.
Proof.
  induction l as [|x l IH]; [reflexivity|].
  intros [Hx Hl]%andb_true_iff.
  destruct l as [|y l]; [|now apply IH].
  simpl. unfold Pathlib.wf_name in Hx. now apply andb_true_iff in Hx as [? _].
Qed.

Lemma no_sep_stem p : Pathlib.wf_path p = true -> Str.no_sep (Pathlib.stem p) = true.
Proof.
  unfold Pathlib.wf_path, Pathlib.stem, Pathlib.name.
  intros [_ Hl]%andb_true_iff.
  pose proof (no_sep_last _ Hl) as Hn.
  destruct (Pathlib.suffix_at _); [|assumption].
  now apply no_sep_substring.
Qed.

(** stem and a dotted extension make one well-formed component *)
Lemma wf_name_stem_ext p ext :
  Pathlib.wf_path p = true -> Str.no_sep ext = true ->
  Str.startswith ext "." = true -> ext <> "." ->
  Pathlib.wf_name (Pathlib.stem p +:+ ext) = true.
Proof.
  intros Hp Hs Hdot Hne.
  unfold Pathlib.wf_name. rewrite no_sep_app, (no_sep_stem _ Hp), Hs. simpl.
  unfold Pathlib.keeps.
  destruct (String.eqb_spec (Pathlib.stem p +:+ ext) "") as [E|_].
  { apply app_eq_empty in E as [_ ->]. discriminate. }
  destruct (String.eqb_spec (Pathlib.stem p +:+ ext) ".") as [E|_]; [|reflexivity].
  exfalso. destruct (Pathlib.stem p) as [|c s]; [now apply Hne|].
  rewrite append_cons in E. injection E as _ E.
  apply app_eq_empty in E as [_ ->]. discriminate.
Qed.

Lemma Path_wf s : Pathlib.wf_path (Pathlib.Path s) = true.
Proof.
  unfold Pathlib.wf_path, Pathlib.Path. simpl. apply andb_true_iff. split.
  - unfold Pathlib.parse_root.
    destruct (Str.leading_seps s) as [|[|[|?]]]; reflexivity.
  - pose proof (split_sep_pieces s) as H.
    induction (Str.split_sep s) as [|x l IH]; [reflexivity|].
    simpl in H. apply andb_true_iff in H as [Hx Hl].
    destruct (Pathlib.keeps x) eqn:Ek.
    + rewrite filter_cons_True by now rewrite Ek.
      simpl. unfold Pathlib.wf_name at 1. rewrite Hx, Ek. now apply IH.
    + rewrite filter_cons_False by now rewrite Ek. now apply IH.
Qed.

Lemma absolute_wf cwd p :
  Pathlib.wf_path cwd = true -> Pathlib.wf_path p = true ->
  Pathlib.wf_path (Pathlib.absolute cwd p) = true.
Proof.
  unfold Pathlib.absolute. intros Hc Hp.
  destruct (Pathlib.is_absolute p); [assumption|].
  unfold Pathlib.wf_path in *. simpl.
  apply andb_true_iff in Hc as [Hr Hl]. apply andb_true_iff in Hp as [_ Hl'].
  now rewrite Hr, forallb_app, Hl, Hl'.
Qed.

End StringFacts.

(** ** The conversion task *)

Section ConvertFacts.

Context {Image World : Type} (env : Env Image World).

Implicit Types (src : PurePath) (config : Config) (w : World) (s : State Image World).

Ltac unfold_stmt :=
  unfold run, convert, bind, with_image, try_except, Image_open, exists_, tqdm_write,
    Image_save, __handle_jpg_transparency, Image_convert, ret, emit;
  cbn [world log].

Ltac split_calls :=
  repeat match goal with
    | |- context [pil_open ?e ?p ?w] =>
        destruct (pil_open e p w) as [[?|?] ?] eqn:?; cbn [world log]
    | |- context [pil_save ?e ?i ?d ?f ?q ?o ?p ?w] =>
        destruct (pil_save e i d f q o p w) as [[?|?] ?] eqn:?; cbn [world log]
    | |- context [pil_convert ?e ?i ?m ?w] =>
        destruct (pil_convert e i m w) as [[?|?] ?] eqn:?; cbn [world log]
    | |- context [path_exists ?e ?p ?w] =>
        destruct (path_exists e p w) eqn:?; cbn [world log]
    | |- context [isinstance_OSError ?c] =>
        destruct (isinstance_OSError c) eqn:?; cbn [world log]
    | |- context [isinstance_Exception ?c] =>
        destruct (isinstance_Exception c) eqn:?; cbn [world log]
    | |- context [Str.contains ?a ?b] =>
        destruct (Str.contains a b) eqn:?; cbn [world log]
    end.

(** A task only appends to the log, and what it appends does not
    depend on what the log held before. *)
Lemma convert_frame src config s :
  convert env src config s
  = (let '(r, s') := run (convert env src config) (world s) in
     (r, {| world := world s'; log := log s ++ log s' |})).
Proof.
  destruct s as [w l]. unfold_stmt. split_calls;
    cbn [app]; rewrite <- ?app_assoc; reflexivity.
Qed.

(** Every call of a task is one of [task_event]. *)
Lemma convert_events src config w :
  Forall (task_event env src config) (log (run (convert env src config) w).2).
Proof.
  unfold_stmt. split_calls; cbn [app snd log];
    repeat (apply Forall_cons; split; [cbn; by repeat split|]); by apply Forall_nil.
Qed.

(** the save of the try block and the save of the handler are the
    same call *)
Ltac fold_save :=
  unfold codec_save, save_call, exists_note in *.

(** C1. The task opens the source before its [try] block: when
    [Image.open] raises, nothing in [convert] catches the exception,
    no line is written and the exception leaves the task. *)
Theorem convert_raises_when_open_fails src config w e w' :
  pil_open env src w = (Raised e, w') ->
  run (convert env src config) w = (Raised e, {| world := w'; log := [EvOpen src] |}).
Proof.
  intros Hopen. unfold_stmt. rewrite Hopen. reflexivity.
Qed.

(** C2. A first save that fails with an [OSError] whose message
    does not hold [RGBA] is followed by a second, identical save, and
    the task ends as that second save ends: no error line is
    written, and a second failure leaves the task as an exception. *)
Theorem convert_saves_again_after_plain_OSError src config w im w1 e w2 r w3 :
  pil_open env src w = (Normal im, w1) ->
  codec_save env im src config w1 = (Raised e, w2) ->
  isinstance_OSError (exc_class e) = true ->
  Str.contains "RGBA" (exc_str e) = false ->
  codec_save env im src config w2 = (r, w3) ->
  run (convert env src config) w
  = (r, {| world := pil_close env im w3;
           log := [EvOpen src] ++ exists_note env src config w1
                  ++ [save_call env im src config; save_call env im src config; EvClose im] |}).
Proof.
  intros Hopen Hsave Hcls Hmsg Hsave2. fold_save. unfold_stmt.
  rewrite Hopen. cbn [world log].
  destruct (path_exists env _ w1); cbn [world log];
    rewrite Hsave, Hcls, Hmsg; cbn [world log]; rewrite Hsave2; reflexivity.
Qed.




(** every save of a task carries the quality, optimize and
    progressive of the configuration *)
Lemma saves_carry_the_configuration src config w :
  Forall (fun ev => match ev with
                    | EvSave _ _ _ q o p =>
                        q = IMAGE_QUALITY config /\ o = OPTIMIZE config
                        /\ p = PROGRESSIVE config
                    | _ => True
                    end)
         (log (run (convert env src config) w).2).
Proof.
  eapply Forall_impl; [apply convert_events|].
  intros [] H; cbn in *; tauto.
Qed.

(** a task never saves more than twice *)
Lemma at_most_two_saves src config w :
  (length (filter (fun ev => Is_true (is_save ev)) (log (run (convert env src config) w).2)) <= 2)%nat.
Proof.
  unfold_stmt. split_calls; vm_compute; lia.
Qed.

End ConvertFacts.

(** ** The world follows the log *)

Section Traces.

Context {Image World : Type} (env : Env Image World).

Implicit Types (src : PurePath) (config : Config) (w : World) (s : State Image World).

Lemma replay_app (l1 l2 : list (Event Image)) w :
  replay env (l1 ++ l2) w = replay env l2 (replay env l1 w).
Proof. apply fold_left_app. Qed.

Lemma traced_ret {A} (a : A) : traced env (ret a).
Proof. intros s. exists []. cbn. by rewrite app_nil_r. Qed.

Lemma traced_raise {A} e : traced env (raise (A := A) e).
Proof. intros s. exists []. cbn. by rewrite app_nil_r. Qed.

Lemma traced_bind {A B} (m : Stmt Image World A) (k : A -> Stmt Image World B) :
  traced env m -> (forall a, traced env (k a)) -> traced env (bind m k).
Proof.
  intros Hm Hk s. unfold bind. destruct (Hm s) as (l1 & Hl1 & Hw1).
  destruct (m s) as [[a|e] s1]; cbn [snd] in *.
  - destruct (Hk a s1) as (l2 & Hl2 & Hw2). exists (l1 ++ l2).
    by rewrite Hl2, Hl1, Hw2, Hw1, replay_app, app_assoc.
  - by exists l1.
Qed.

Lemma traced_try_except {A} (body : Stmt Image World A) handlers :
  traced env body ->
  (forall e h, handlers e = Some h -> traced env h) ->
  traced env (try_except body handlers).
Proof.
  intros Hb Hh s. unfold try_except. destruct (Hb s) as (l1 & Hl1 & Hw1).
  destruct (body s) as [[a|e] s1]; cbn [snd] in *; [by exists l1|].
  destruct (handlers e) as [h|] eqn:E; [|by exists l1].
  destruct (Hh e h E s1) as (l2 & Hl2 & Hw2). exists (l1 ++ l2).
  by rewrite Hl2, Hl1, Hw2, Hw1, replay_app, app_assoc.
Qed.

Lemma traced_with_image {A} im (body : Stmt Image World A) :
  traced env body -> traced env (with_image env im body).
Proof.
  intros Hb s. unfold with_image. destruct (Hb s) as (l & Hl & Hw).
  destruct (body s) as [r s1]; cbn [snd world log] in *.
  exists (l ++ [EvClose im]). by rewrite Hl, Hw, replay_app, app_assoc.
Qed.

Lemma traced_tqdm_write line : traced env (tqdm_write (Image := Image) line).
Proof. intros s. by exists [EvWrite line]. Qed.

Lemma traced_glob pattern recursive : traced env (glob env pattern recursive).
Proof. intros s. by exists [EvGlob pattern recursive]. Qed.

Lemma traced_exists p : traced env (exists_ env p).
Proof. intros s. exists []. cbn. by rewrite app_nil_r. Qed.

Lemma traced_is_dir p : traced env (is_dir env p).
Proof. intros s. exists []. cbn. by rewrite app_nil_r. Qed.

Lemma traced_Image_open p : traced env (Image_open env p).
Proof.
  intros s. exists [EvOpen p]. unfold Image_open. cbn [replay fold_left effect].
  by destruct (pil_open env p (world s)).
Qed.

Lemma traced_Image_save im dest format quality optimize progressive :
  traced env (Image_save env im dest format quality optimize progressive).
Proof.
  intros s. exists [EvSave im dest format quality optimize progressive].
  unfold Image_save. cbn [replay fold_left effect].
  by destruct (pil_save env im dest format quality optimize progressive (world s)).
Qed.

Lemma traced_Image_convert im mode : traced env (Image_convert env im mode).
Proof.
  intros s. exists [EvConvert im mode]. unfold Image_convert. cbn [replay fold_left effect].
  by destruct (pil_convert env im mode (world s)).
Qed.

(** Every change a task makes to the world is made by a call of its
    log. *)
Lemma convert_traced src config : traced env (convert env src config).
Proof.
  unfold convert. apply traced_bind; [apply traced_Image_open|]. intros image.
  apply traced_with_image, traced_try_except.
  - apply traced_bind; [apply traced_exists|]. intros found.
    apply traced_bind; [|intros _; apply traced_Image_save].
    destruct found; [apply traced_tqdm_write|apply traced_ret].
  - intros e h. destruct (isinstance_OSError (exc_class e)).
    + intros [= <-]. apply traced_bind; [|intros image'; apply traced_Image_save].
      destruct (Str.contains "RGBA" (exc_str e)); [|apply traced_ret].
      apply traced_bind; [apply traced_tqdm_write|].
      intros _. apply traced_Image_convert.
    + destruct (isinstance_Exception (exc_class e)); [|discriminate].
      intros [= <-]. apply traced_tqdm_write.
Qed.

Lemma check_config_traced config : traced env (check_config env config).
Proof.
  unfold check_config, raise_SystemExit.
  repeat first
    [ apply traced_raise | apply traced_ret | apply traced_is_dir | apply traced_exists
    | apply traced_glob
    | match goal with |- traced _ (if ?b then _ else _) => destruct b end
    | apply traced_bind; [|intros ?] ].
Qed.

(** a task started on [w]: its world is [w] after the calls of its log *)
Lemma convert_run src config w :
  exists r l, run (convert env src config) w = (r, {| world := replay env l w; log := l |}).
Proof.
  destruct (convert_traced src config {| world := w; log := [] |}) as (l & Hl & Hw).
  unfold run. destruct (convert env src config _) as [r [w' l']].
  cbn [snd world log app] in *. subst. by exists r, l.
Qed.

(** the logs of tasks that ran one after the other make up the log of
    the whole *)
Lemma merge_concat (empties logs : list (list (Event Image))) :
  Forall (fun l => l = []) empties ->
  merge_of (empties ++ logs) (concat logs).
Proof.
  revert empties. induction logs as [|l logs IH]; intros empties Hempty.
  - rewrite app_nil_r. by apply merge_done.
  - induction l as [|ev l IHl]; cbn [concat app].
    + specialize (IH (empties ++ [[]])). rewrite <- app_assoc in IH. apply IH.
      apply Forall_app. split; [exact Hempty|]. apply Forall_cons. split; [done|by apply Forall_nil].
    + apply merge_step. exact IHl.
Qed.

End Traces.

(** ** The destination path *)

Section DestinationPath.

Context {Image World : Type} (env : Env Image World).

(** [dest_path_of] looks at the name of the source and at two fields
    of the configuration, nothing else *)
Lemma dest_path_of_depends src src' config config' :
  Pathlib.name src' = Pathlib.name src ->
  DESTINATION_FOLDER config' = DESTINATION_FOLDER config ->
  DESTINATION_FILE_TYPE config' = DESTINATION_FILE_TYPE config ->
  dest_path_of env src' config' = dest_path_of env src config.
Proof.
  intros Hn Hf Ht. unfold dest_path_of, Pathlib.stem. now rewrite Hn, Hf, Ht.
Qed.

(** C5. The destination path is the absolute destination folder
    with one more component, the stem of the source followed by the
    destination extension: its parent is the destination folder
    whatever directory the source was found in, and it is the same
    path for any two sources of the same name and any two
    configurations with the same destination folder and extension. *)
Theorem dest_path_is_flat src config :
  Pathlib.wf_path (getcwd env) = true ->
  Pathlib.wf_path (DESTINATION_FOLDER config) = true ->
  Pathlib.wf_path src = true ->
  Str.no_sep (DESTINATION_FILE_TYPE config) = true ->
  Str.startswith (DESTINATION_FILE_TYPE config) "." = true ->
  DESTINATION_FILE_TYPE config <> "." ->
  let folder := Pathlib.absolute (getcwd env) (DESTINATION_FOLDER config) in
  let file := Pathlib.stem src +:+ DESTINATION_FILE_TYPE config in
  names (dest_path_of env src config) = names folder ++ [file]
  /\ Pathlib.name (dest_path_of env src config) = file
  /\ (names folder <> [] -> root (dest_path_of env src config) = root folder)
  /\ (forall src' config',
         Pathlib.name src' = Pathlib.name src ->
         DESTINATION_FOLDER config' = DESTINATION_FOLDER config ->
         DESTINATION_FILE_TYPE config' = DESTINATION_FILE_TYPE config ->
         dest_path_of env src' config' = dest_path_of env src config).
Proof.
  intros Hcwd Hdst Hsrc Hsep Hdot Hne folder file.
  assert (Hfolder : Pathlib.wf_path folder = true) by now apply absolute_wf.
  assert (Hfile : Pathlib.wf_name file = true) by now apply wf_name_stem_ext.
  assert (Hnames : names (dest_path_of env src config) = names folder ++ [file]).
  { unfold dest_path_of. fold folder.
    replace (Pathlib.str folder +:+ "/" +:+ Pathlib.stem src +:+ DESTINATION_FILE_TYPE config)
      with (Pathlib.str folder +:+ "/" +:+ file) by reflexivity.
    now apply names_Path_child. }
  split; [exact Hnames|]. split; [|split].
  - unfold Pathlib.name. rewrite Hnames. apply last_last.
  - intros Hroot. unfold dest_path_of. fold folder.
    now apply root_Path_child.
  - intros src' config'. apply dest_path_of_depends.
Qed.

End DestinationPath.

(** ** Normalization of the extensions *)

Section Normalization.

Lemma startswith_dot t :
  Str.startswith t "." = true <-> exists t', t = String "." t'.
Proof.
  unfold Str.startswith. destruct t as [|c t].
  - split; [discriminate|]. intros [? ?]; discriminate.
  - change (String.prefix "." (String c t))
      with (if Ascii.ascii_dec "." c then String.prefix "" t else false).
    destruct (Ascii.ascii_dec "." c) as [<-|Hc].
    + split; [eauto|]. intros _. now destruct t.
    + split; [discriminate|]. intros [t' E]. injection E as -> _. now contradict Hc.
Qed.

Lemma normalize_ext_dotted t : Str.startswith t "." = true -> normalize_ext t = t.
Proof. intros H. unfold normalize_ext. now rewrite H. Qed.

Lemma normalize_ext_bare t : Str.startswith t "." = false -> normalize_ext t = "." +:+ t.
Proof. intros H. unfold normalize_ext. now rewrite H. Qed.

Lemma normalize_ext_starts t : Str.startswith (normalize_ext t) "." = true.
Proof.
  unfold normalize_ext. destruct (Str.startswith t ".") eqn:E; cbn [negb]; [exact E|].
  apply startswith_dot. now exists t.
Qed.

Lemma normalize_ext_idem t : normalize_ext (normalize_ext t) = normalize_ext t.
Proof. apply normalize_ext_dotted, normalize_ext_starts. Qed.

End Normalization.

(** ** Validation, the pool and the main program *)

Section MainFacts.

Context {Image World : Type} (env : Env Image World).

Implicit Types (config : Config) (s : State Image World) (w : World).

(** [check_config] ends in one of three ways: [SystemExit] before
    the discovery, [SystemExit] after it, or the normalized
    configuration with both extensions registered. *)
Lemma check_config_cases config s :
  (exists msg, check_config env config s = (Raised (mkExc SystemExit msg), s))
  \/ (exists msg, check_config env config s
                  = (Raised (mkExc SystemExit msg), emit (validation_glob config) s))
  \/ (check_config env config s = (Normal (normalized config), emit (validation_glob config) s)
      /\ is_registered env (normalize_ext (DESTINATION_FILE_TYPE config)) = true
      /\ is_registered env (normalize_ext (SOURCE_FILE_TYPE config)) = true).
Proof.
  unfold check_config, bind, is_dir, exists_, glob, raise_SystemExit, raise, ret.
  fold (normalized config). unfold validation_glob.
  cbn [SOURCE_FOLDER DESTINATION_FOLDER SOURCE_FILE_TYPE DESTINATION_FILE_TYPE
       IS_RECURSIVE normalized set_SOURCE_FILE_TYPE set_DESTINATION_FILE_TYPE].
  repeat match goal with
    | |- context [if negb ?b then _ else _] => destruct b eqn:?; cbn [negb]
    end; eauto 6.
  all: destruct (bool_decide _); eauto 8.
Qed.

(** The validation raises [SystemExit] whenever the normalized
    destination extension is not registered. *)
Lemma check_config_unregistered config s :
  is_registered env (normalize_ext (DESTINATION_FILE_TYPE config)) = false ->
  exists msg s',
    check_config env config s = (Raised (mkExc SystemExit msg), s')
    /\ world s' = world s
    /\ (log s' = log s \/ log s' = log s ++ [validation_glob config]).
Proof.
  intros Hreg.
  destruct (check_config_cases config s) as [[msg ->]|[[msg ->]|[_ [H _]]]].
  - exists msg, s. auto.
  - exists msg, (emit (validation_glob config) s). auto.
  - congruence.
Qed.

(** a task adds no discovery call *)
Lemma task_event_not_glob src config (ev : Event Image) :
  task_event env src config ev -> is_glob ev = false.
Proof. now destruct ev. Qed.

(** The pool completes every pending call: the futures are those
    already completed and one per pending file, each holding what its
    call of [convert] returned or raised, and the log grows by calls of
    tasks only. *)
Lemma run_pool_completes pick n config :
  forall pending completed s,
    n = length pending ->
    map fut_file (run_pool env pick n config pending completed s).1
      ≡ₚ map fut_file completed ++ pending
    /\ (Forall (ran_as env config) completed ->
        Forall (ran_as env config) (run_pool env pick n config pending completed s).1)
    /\ exists evs,
        log (run_pool env pick n config pending completed s).2 = log s ++ evs
        /\ Forall (fun ev => is_glob ev = false) evs.
Proof.
  induction n as [|n IH]; intros pending completed s Hn.
  - destruct pending; [|discriminate]. cbn [run_pool fst snd]. split; [|split].
    + now rewrite app_nil_r.
    + trivial.
    + exists []. split; [now rewrite app_nil_r|by apply Forall_nil].
  - cbn [run_pool].
    set (i := (pick (length completed) mod length pending)%nat).
    assert (Hi : (i < length pending)%nat)
      by (subst i; apply Nat.mod_upper_bound; lia).
    destruct (lookup_lt_is_Some_2 _ _ Hi) as [file Hfile]. rewrite Hfile.
    unfold work_item.
    pose proof (convert_frame env file config s) as Hframe.
    pose proof (convert_events env file config (world s)) as Hev.
    destruct (run (convert env file config) (world s)) as [r s1].
    cbn [snd log] in *. rewrite Hframe.
    specialize (IH (delete i pending) (completed ++ [mkFuture file r])
                   {| world := world s1; log := log s ++ log s1 |}).
    destruct IH as [Hperm [Hran [evs [Hlog Hevs]]]].
    { rewrite length_delete by eauto. lia. }
    split; [|split].
    + rewrite Hperm, map_app. cbn [map fut_file]. rewrite <- app_assoc. cbn [app].
      now rewrite <- (delete_Permutation _ _ _ Hfile).
    + intros Hdone. apply Hran, Forall_app. split; [exact Hdone|].
      apply Forall_cons. split; [|by apply Forall_nil].
      exists s. cbn [fut_outcome fut_file]. now rewrite Hframe.
    + exists (log s1 ++ evs). rewrite Hlog. cbn [log]. split; [now rewrite app_assoc|].
      apply Forall_app. split; [|assumption].
      eapply Forall_impl; [exact Hev|]. intros ev. apply task_event_not_glob.
Qed.

(** what the script does once the validation has passed and the pool
    has been built *)
Lemma script_after_validation pick config w :
  check_config env config {| world := w; log := [] |}
  = (Normal (normalized config), emit (validation_glob config) {| world := w; log := [] |}) ->
  0 < NB_WORKERS config ->
  exists futs s',
    script env pick config {| world := w; log := [] |} = (Normal futs, s')
    /\ map fut_file futs ≡ₚ discovered env config w
    /\ Forall (ran_as env (normalized config)) futs
    /\ exists evs,
        log s' = [validation_glob config; discovery_glob env config] ++ evs
                 ++ [EvWrite "Done."]
        /\ Forall (fun ev => is_glob ev = false) evs.
Proof.
  intros Hcheck Hworkers. unfold script, bind at 1. rewrite Hcheck.
  unfold bind at 1, glob. cbn [world log emit app].
  unfold bind at 1, dispatch, bind at 1, ThreadPoolExecutor.
  cbn [NB_WORKERS normalized set_DESTINATION_FILE_TYPE set_SOURCE_FILE_TYPE].
  destruct (Z.leb_spec (NB_WORKERS config) 0) as [?|_]; [lia|]. unfold ret at 1.
  cbn [SOURCE_FOLDER SOURCE_FILE_TYPE IS_RECURSIVE normalized
       set_DESTINATION_FILE_TYPE set_SOURCE_FILE_TYPE].
  fold (discovered env config w). fold (normalized config).
  match goal with
  | |- context [run_pool env pick ?n ?c ?p ?d ?s] =>
      destruct (run_pool_completes pick n c p d s eq_refl)
        as [Hperm [Hran [evs [Hlog Hevs]]]];
      destruct (run_pool env pick n c p d s) as [futs s1]
  end.
  cbn [fst snd log] in *. unfold bind, tqdm_write, ret, emit. cbn [world log].
  exists futs, {| world := world s1; log := log s1 ++ [EvWrite "Done."] |}.
  split; [reflexivity|]. split; [exact Hperm|].
  split; [apply Hran; by apply Forall_nil|].
  exists evs. split; [|exact Hevs]. cbn [log]. rewrite Hlog.
  unfold validation_glob, discovery_glob. now rewrite <- app_assoc.
Qed.

(** and when the pool refuses its size *)
Lemma script_pool_refused pick config w :
  check_config env config {| world := w; log := [] |}
  = (Normal (normalized config), emit (validation_glob config) {| world := w; log := [] |}) ->
  NB_WORKERS config <= 0 ->
  script env pick config {| world := w; log := [] |}
  = (Raised (mkExc ValueError "max_workers must be greater than 0"),
     {| world := w; log := [validation_glob config; discovery_glob env config] |}).
Proof.
  intros Hcheck Hworkers. unfold script, bind at 1. rewrite Hcheck.
  unfold bind at 1, glob. cbn [world log emit app].
  unfold bind at 1, dispatch, bind at 1, ThreadPoolExecutor.
  cbn [NB_WORKERS normalized set_DESTINATION_FILE_TYPE set_SOURCE_FILE_TYPE].
  destruct (Z.leb_spec (NB_WORKERS config) 0) as [_|?]; [|lia].
  reflexivity.
Qed.

Lemma script_validation_raises pick config s e s' :
  check_config env config s = (Raised e, s') ->
  script env pick config s = (Raised e, s').
Proof. intros H. unfold script, bind at 1. now rewrite H. Qed.

(** C6. When the destination extension, with its leading dot, is
    not a key of the codec's registry, [check_config] raises
    [SystemExit]: the process ends with status 1, no task was
    submitted and the only calls made are discovery calls. *)
Theorem unsupported_destination_stops_the_run cpu_count pick argv w config :
  configure_argument_parser cpu_count argv = inl config ->
  is_registered env (normalize_ext (DESTINATION_FILE_TYPE config)) = false ->
  (exists msg s',
      check_config env config {| world := w; log := [] |}
      = (Raised (mkExc SystemExit msg), s'))
  /\ exit_status (main env cpu_count pick argv w) = 1
  /\ futures (main env cpu_count pick argv w) = []
  /\ Forall (fun ev => is_glob ev = true) (calls (main env cpu_count pick argv w)).
Proof.
  intros Hparse Hreg.
  destruct (check_config_unregistered config {| world := w; log := [] |} Hreg)
    as [msg [s' [Hcheck [_ Hlog]]]].
  split; [eauto|].
  unfold main. rewrite Hparse, (script_validation_raises pick _ _ _ _ Hcheck).
  cbn [exit_status futures calls]. split; [reflexivity|]. split; [reflexivity|].
  destruct Hlog as [->| ->]; cbn [log app].
  - by apply Forall_nil.
  - apply Forall_cons. split; [reflexivity|by apply Forall_nil].
Qed.

(** every discovery call of a run asks for the normalized source
    extension *)
Lemma discovery_is_normalized pick config w :
  Forall (discovers_with (normalize_ext (SOURCE_FILE_TYPE config)))
         (log (run (script env pick config) w).2).
Proof.
  unfold run.
  assert (Hv : discovers_with (Image := Image) (normalize_ext (SOURCE_FILE_TYPE config))
                              (validation_glob config)) by (cbn; eauto).
  assert (Hd : discovers_with (normalize_ext (SOURCE_FILE_TYPE config))
                              (discovery_glob env config)) by (cbn; eauto).
  destruct (check_config_cases config {| world := w; log := [] |})
    as [[msg Hc]|[[msg Hc]|[Hc _]]].
  - rewrite (script_validation_raises pick _ _ _ _ Hc). by apply Forall_nil.
  - rewrite (script_validation_raises pick _ _ _ _ Hc). cbn [snd log emit app].
    apply Forall_cons. split; [exact Hv|by apply Forall_nil].
  - destruct (Z.lt_ge_cases 0 (NB_WORKERS config)) as [Hpos|Hneg].
    + destruct (script_after_validation pick config w Hc Hpos)
        as [futs [s' [-> [_ [_ [evs [Hlog Hevs]]]]]]].
      cbn [snd]. rewrite Hlog. cbn [app].
      apply Forall_cons. split; [exact Hv|]. apply Forall_cons. split; [exact Hd|].
      apply Forall_app. split.
      * eapply Forall_impl; [exact Hevs|]. intros []; cbn; try done.
      * apply Forall_cons. split; [exact I|by apply Forall_nil].
    + rewrite (script_pool_refused pick config w Hc Hneg). cbn [snd log].
      apply Forall_cons. split; [exact Hv|]. apply Forall_cons. split; [exact Hd|].
      by apply Forall_nil.
Qed.

(** C7. Normalizing twice is normalizing once; an extension that
    starts with a dot is left as it is and any other gets one dot in
    front, so ["gif"] becomes [".gif"]; a configuration that passes
    [check_config] holds the normalized extensions, and every
    discovery call of a run, the one inside [check_config] included,
    is made with the normalized source extension. *)
Theorem extension_normalization_is_idempotent :
  (forall t, normalize_ext (normalize_ext t) = normalize_ext t)
  /\ (forall t, Str.startswith t "." = true -> normalize_ext t = t)
  /\ (forall t, Str.startswith t "." = false -> normalize_ext t = "." +:+ t)
  /\ normalize_ext "gif" = ".gif"
  /\ (forall config s config' s',
         check_config env config s = (Normal config', s') ->
         SOURCE_FILE_TYPE config' = normalize_ext (SOURCE_FILE_TYPE config)
         /\ DESTINATION_FILE_TYPE config' = normalize_ext (DESTINATION_FILE_TYPE config))
  /\ (forall pick config w,
         Forall (discovers_with (normalize_ext (SOURCE_FILE_TYPE config)))
                (log (run (script env pick config) w).2)).
Proof.
  split; [exact normalize_ext_idem|]. split; [exact normalize_ext_dotted|].
  split; [exact normalize_ext_bare|]. split; [reflexivity|]. split.
  - intros config s config' s' Hc.
    destruct (check_config_cases config s) as [[msg H]|[[msg H]|[H _]]];
      rewrite H in Hc; try discriminate.
    injection Hc as <- _. split; reflexivity.
  - exact discovery_is_normalized.
Qed.

(** The pool as a sequence of tasks: each new future holds the
    completion of the call on its file, started on the world the
    calls before it left, and the log grows by the calls of these
    tasks. *)
Lemma run_pool_trace pick n config :
  forall pending completed s,
    exists news logs,
      run_pool env pick n config pending completed s
      = (completed ++ news,
         {| world := replay env (concat logs) (world s); log := log s ++ concat logs |})
      /\ Forall2 (task_ran env config) news logs.
Proof.
  induction n as [|n IH]; intros pending completed [w l]; cbn [run_pool world log].
  - exists [], []. cbn. by rewrite !app_nil_r.
  - destruct (pending !! _) as [file|]; [|exists [], []; cbn; by rewrite !app_nil_r].
    unfold work_item. rewrite convert_frame. cbn [world log].
    destruct (convert_run env file config w) as (r & l1 & Hrun). rewrite Hrun.
    cbn [world log].
    destruct (IH (delete (pick (length completed) mod length pending)%nat pending)
                 (completed ++ [mkFuture file r])
                 {| world := replay env l1 w; log := l ++ l1 |})
      as (news & logs & -> & Hran).
    exists (mkFuture file r :: news), (l1 :: logs). cbn [world log concat]. split.
    + by rewrite replay_app, <- !app_assoc.
    + apply Forall2_cons. split; [|exact Hran]. exists w. exact Hrun.
Qed.

(** the script once the validation has passed and the pool has been
    built: the two discoveries, the tasks, [Done.] *)
Lemma script_trace pick config w :
  check_config env config {| world := w; log := [] |}
  = (Normal (normalized config), emit (validation_glob config) {| world := w; log := [] |}) ->
  0 < NB_WORKERS config ->
  exists futs logs,
    script env pick config {| world := w; log := [] |}
    = (Normal futs,
       {| world := replay env (concat logs) w;
          log := validation_glob config :: discovery_glob env config
                   :: concat logs ++ [EvWrite "Done."] |})
    /\ Forall2 (task_ran env (normalized config)) futs logs.
Proof.
  intros Hcheck Hworkers. unfold script, bind at 1. rewrite Hcheck.
  unfold bind at 1, glob. cbn [world log emit app].
  unfold bind at 1, dispatch, bind at 1, ThreadPoolExecutor.
  cbn [NB_WORKERS normalized set_DESTINATION_FILE_TYPE set_SOURCE_FILE_TYPE].
  destruct (Z.leb_spec (NB_WORKERS config) 0) as [?|_]; [lia|]. unfold ret at 1.
  cbn [SOURCE_FOLDER SOURCE_FILE_TYPE IS_RECURSIVE normalized
       set_DESTINATION_FILE_TYPE set_SOURCE_FILE_TYPE].
  fold (discovered env config w). fold (normalized config).
  match goal with
  | |- context [run_pool env pick ?n ?c ?p ?d ?s] =>
      destruct (run_pool_trace pick n c p d s) as (futs & logs & -> & Hran)
  end.
  exists futs, logs. split; [|exact Hran].
  unfold bind, tqdm_write, ret, emit. cbn [world log app]. reflexivity.
Qed.

(** C10. Once the validation has passed and the pool is built, the
    run ends with status 0 and no exception reaches the interpreter,
    its last call writes [Done.], and there is one future for every
    discovered file, each holding what its call of [convert] returned
    or raised, whatever the other tasks did: a future that holds an
    exception is never asked for its result.  Every one of these tasks
    has run: between the two discoveries and [Done.] the calls of the
    run are the calls of the tasks, those of one task in their order,
    and the world at the end is the world at the start after the
    calls of the run. *)
Theorem task_exceptions_are_dropped cpu_count pick argv w config config' s1 :
  configure_argument_parser cpu_count argv = inl config ->
  check_config env config {| world := w; log := [] |} = (Normal config', s1) ->
  0 < NB_WORKERS config ->
  exit_status (main env cpu_count pick argv w) = 0
  /\ uncaught (main env cpu_count pick argv w) = []
  /\ last (calls (main env cpu_count pick argv w)) = Some (EvWrite "Done.")
  /\ map fut_file (futures (main env cpu_count pick argv w)) ≡ₚ discovered env config w
  /\ Forall (ran_as env config') (futures (main env cpu_count pick argv w))
  /\ (exists logs body,
        Forall2 (task_ran env config') (futures (main env cpu_count pick argv w)) logs
        /\ merge_of logs body
        /\ calls (main env cpu_count pick argv w)
           = validation_glob config :: discovery_glob env config
               :: body ++ [EvWrite "Done."])
  /\ final_world (main env cpu_count pick argv w)
     = replay env (calls (main env cpu_count pick argv w)) w.
Proof.
  intros Hparse Hcheck Hworkers.
  destruct (check_config_cases config {| world := w; log := [] |})
    as [[msg H]|[[msg H]|[H _]]]; try (rewrite H in Hcheck; discriminate).
  assert (config' = normalized config) as -> by congruence.
  destruct (script_after_validation pick config w H Hworkers)
    as [futs [s' [Hscript [Hperm [Hran [evs [Hlog _]]]]]]].
  destruct (script_trace pick config w H Hworkers) as (futs' & logs & Htrace & Htasks).
  rewrite Hscript in Htrace. injection Htrace as <- ->.
  unfold main. rewrite Hparse, Hscript.
  cbn [exit_status uncaught calls futures final_world world log].
  split; [reflexivity|]. split; [reflexivity|]. split; [|split; [|split; [|split]]].
  - change (validation_glob config :: discovery_glob env config
              :: concat logs ++ [EvWrite "Done."])
      with ((validation_glob config :: discovery_glob env config :: concat logs)
              ++ [EvWrite "Done."]).
    apply last_snoc.
  - exact Hperm.
  - exact Hran.
  - exists logs, (concat logs). split; [exact Htasks|]. split; [|reflexivity].
    apply (merge_concat []). by apply Forall_nil.
  - change (validation_glob config :: discovery_glob env config
              :: concat logs ++ [EvWrite "Done."])
      with ([validation_glob config; discovery_glob env config]
              ++ concat logs ++ [EvWrite "Done."]).
    by rewrite !replay_app.
Qed.

End MainFacts.

(** ** The command line *)

Section CommandLine.

Lemma optionals_keep_quality :
  Forall (fun ka => Argparse.keeps_quality ka.2) Argparse.optionals.
Proof.
  unfold Argparse.optionals.
  repeat (apply Forall_cons; split; [cbn; try done|]). by apply Forall_nil.
Qed.

Lemma find_action_keeps o table a :
  Forall (fun ka => Argparse.keeps_quality ka.2) table ->
  Argparse.find_action o table = Some a -> Argparse.keeps_quality a.
Proof.
  induction table as [|[k b] table IH]; cbn [Argparse.find_action]; [discriminate|].
  intros [Hb Ht]%Forall_cons. destruct (String.eqb o k); [|now apply IH].
  now intros [= <-].
Qed.

Lemma option_tuples_keep t tok :
  In tok (Argparse.option_tuples t) ->
  match tok with Argparse.Optional a _ => Argparse.keeps_quality a | _ => True end.
Proof.
  pose proof optionals_keep_quality as H. unfold Argparse.option_tuples.
  destruct (Str.startswith t "--").
  - destruct (Argparse.split_eq t) as [prefix explicit_arg].
    induction H as [|[k a] table Ha _ IH]; cbn [flat_map]; [contradiction|].
    rewrite in_app_iff. intros [Hin|Hin]; [|now apply IH].
    destruct (Str.startswith k prefix); [|contradiction].
    destruct Hin as [<-|[]]. exact Ha.
  - induction H as [|[k a] table Ha _ IH]; cbn [flat_map]; [contradiction|].
    rewrite in_app_iff. intros [Hin|Hin]; [|now apply IH].
    destruct (String.eqb k (Str.take 2 t)).
    + destruct Hin as [<-|[]]. exact Ha.
    + destruct (Str.startswith k t); [|contradiction].
      destruct Hin as [<-|[]]. exact Ha.
Qed.

(** every action the parser finds for a token is one of the table *)
Lemma parse_optional_keeps t a explicit_arg :
  Argparse.parse_optional t = Argparse.Optional a explicit_arg -> Argparse.keeps_quality a.
Proof.
  unfold Argparse.parse_optional.
  destruct (negb (Str.startswith t "-")); [discriminate|].
  destruct (Argparse.find_action t Argparse.optionals) as [b|] eqn:Ht.
  { intros [= <- _]. eapply find_action_keeps; [apply optionals_keep_quality|exact Ht]. }
  destruct (String.length t =? 1)%nat; [discriminate|].
  destruct (Argparse.split_eq t) as [o [v|]].
  - destruct (Argparse.find_action o Argparse.optionals) as [b|] eqn:Ho.
    { intros [= <- _]. eapply find_action_keeps; [apply optionals_keep_quality|exact Ho]. }
    pose proof (option_tuples_keep t) as Hin.
    destruct (Argparse.option_tuples t) as [|tok [|tok' l]]; try discriminate.
    + destruct (Argparse.looks_negative_number t), (Argparse.has_space t); discriminate.
    + intros ->. apply (Hin _ (or_introl eq_refl)).
  - pose proof (option_tuples_keep t) as Hin.
    destruct (Argparse.option_tuples t) as [|tok [|tok' l]]; try discriminate.
    + destruct (Argparse.looks_negative_number t), (Argparse.has_space t); discriminate.
    + intros ->. apply (Hin _ (or_introl eq_refl)).
Qed.

Lemma finish_keeps_quality ns pos extras ns' :
  Argparse.quality ns = 80 ->
  Argparse.finish ns pos extras = Argparse.Args ns' -> Argparse.quality ns' = 80.
Proof.
  intros Hq. unfold Argparse.finish, Argparse.usage.
  destruct pos as [|a [|b [|c [|d [|e pos]]]]]; try discriminate.
  destruct extras; [discriminate|]. now intros [= <-].
Qed.

(** a namespace behind the separator is the one of [finish] *)
Lemma after_separator_Args ns pos trailing rest extras ns' :
  Argparse.after_separator ns pos trailing rest extras = Argparse.Args ns' ->
  Argparse.finish ns (pos ++ rest) extras = Argparse.Args ns'.
Proof.
  unfold Argparse.after_separator. destruct rest as [|t rest].
  - rewrite app_nil_r. destruct trailing; [done|].
    destruct (Argparse.finish ns pos extras); discriminate.
  - destruct (Argparse.finish ns (pos ++ t :: rest) extras); [|discriminate].
    destruct (forallb _ _); [done|discriminate].
Qed.

(** no option changes the quality: [--quality] stores the constant
    that is also the default *)
Lemma scan_keeps_quality n :
  forall toks ns pos extras ns',
    (length toks <= n)%nat ->
    Argparse.quality ns = 80 ->
    Argparse.scan toks ns pos extras = Argparse.Args ns' ->
    Argparse.quality ns' = 80.
Proof.
  induction n as [|n IH]; intros toks ns pos extras ns' Hlen Hq.
  - destruct toks; [|cbn in Hlen; lia]. cbn [Argparse.scan]. now apply finish_keeps_quality.
  - destruct toks as [|t rest]; cbn [Argparse.scan]; [now apply finish_keeps_quality|].
    cbn [length] in Hlen.
    destruct (String.eqb t "--").
    { intros H%after_separator_Args. now apply finish_keeps_quality in H. }
    pose proof (parse_optional_keeps t) as Hkeep.
    unfold Argparse.usage, Argparse.store_int.
    destruct (Argparse.parse_optional t) as [|a [v|]| |]; try discriminate.
    + destruct rest as [|t' rest']; [apply IH; [cbn; lia|exact Hq]|].
      destruct (String.eqb t' "--"); [|apply IH; [lia|exact Hq]].
      intros H%after_separator_Args. now apply finish_keeps_quality in H.
    + specialize (Hkeep a (Some v) eq_refl). destruct a; try discriminate.
      * destruct (Argparse.int_of_string v); [|discriminate].
        apply IH; [lia|]. cbn in Hkeep. now rewrite Hkeep.
      * destruct (Argparse.help_cluster t v); discriminate.
    + specialize (Hkeep a None eq_refl). destruct a; cbn in Hkeep; try discriminate.
      * destruct rest as [|v rest']; [discriminate|].
        destruct (Argparse.is_argument v); [|discriminate].
        destruct (Argparse.int_of_string v); [|discriminate].
        apply IH; [cbn [length] in Hlen; lia|]. now rewrite Hkeep.
      * apply IH; [lia|]. now rewrite Hkeep.
      * apply IH; [lia|]. apply Hkeep.
    + apply IH; [lia|exact Hq].
Qed.

(** C8. The parser declares [--quality] with [store_const]: the
    option takes no value, and the quality of every parsed
    configuration is 80; a command line that gives [--quality] a
    number, after a space or after [=], ends as a usage error,
    status 2. *)
Theorem quality_option_takes_no_value :
  (forall cpu_count argv config,
      configure_argument_parser cpu_count argv = inl config -> IMAGE_QUALITY config = 80)
  /\ (forall cpu_count,
         configure_argument_parser cpu_count ["/in"; "/out"; "png"; "jpg"; "--quality"; "50"]
         = inr (2, "unrecognized arguments"))
  /\ (forall cpu_count,
         configure_argument_parser cpu_count ["--quality"; "50"; "/in"; "/out"; "png"; "jpg"]
         = inr (2, "unrecognized arguments"))
  /\ (forall cpu_count,
         configure_argument_parser cpu_count ["/in"; "/out"; "png"; "jpg"; "--quality=50"]
         = inr (2, "ignored explicit argument")).
Proof.
  split; [|repeat split; intros; reflexivity].
  intros cpu_count argv config. unfold configure_argument_parser, Argparse.parse_args.
  destruct (existsb _ _); [discriminate|].
  destruct (Argparse.scan argv _ [] false) as [ns|status message] eqn:E; [|discriminate].
  intros [= <-]. cbn [IMAGE_QUALITY Config_init].
  now apply (scan_keeps_quality (length argv) argv (Argparse.defaults cpu_count) [] false ns).
Qed.

End CommandLine.

(** ** The properties on the small world *)

Section Runs.

Abbreviation E := (Demo.env "/home/user").
Abbreviation in_ f := (Pathlib.Path ("/in/" +:+ f)).
Abbreviation out_ f := (Pathlib.Path ("/out/" +:+ f)).
Abbreviation jpeg im f := (EvSave (Demo.mkImage im) (out_ f) (Some "JPEG") 80 true true).

(** a file that is no image: [Image.open] raises and so does the task *)
Lemma convert_raises_when_open_fails_witness :
  run (convert E (in_ "e.png") (Demo.config ".jpg")) Demo.pictures
  = (Raised (mkExc UnidentifiedImageError "cannot identify image file '/in/e.png'"),
     {| world := Demo.pictures; log := [EvOpen (in_ "e.png")] |}).
Proof.
  apply (convert_raises_when_open_fails E). reflexivity.
Defined.

(** a palette picture sent to JPEG: two identical saves, no error
    line, and the second [OSError] leaves the task *)
Lemma convert_saves_again_after_plain_OSError_witness :
  run (convert E (in_ "d.png") (Demo.config ".jpg")) Demo.pictures
  = (Raised (mkExc OSError "cannot write mode P as JPEG"),
     {| world := Demo.pictures;
        log := [EvOpen (in_ "d.png"); jpeg "P" "d.jpg"; jpeg "P" "d.jpg";
                EvClose (Demo.mkImage "P")] |}).
Proof.
  apply (convert_saves_again_after_plain_OSError E (in_ "d.png") (Demo.config ".jpg")
           Demo.pictures (Demo.mkImage "P") Demo.pictures
           (mkExc OSError "cannot write mode P as JPEG") Demo.pictures
           (Raised (mkExc OSError "cannot write mode P as JPEG")) Demo.pictures);
    reflexivity.
Defined.





(** a source two directories down, a relative destination folder *)
Lemma dest_path_is_flat_witness :
  names (dest_path_of E (Pathlib.Path "/in/2019/holiday/a.b.png")
                      (mkConfig 4 (Pathlib.Path "out") ".jpg" (Pathlib.Path "/in") ".png"
                                true 80 true true))
  = ["home"; "user"; "out"; "a.b.jpg"].
Proof.
  apply (proj1 (dest_path_is_flat E (Pathlib.Path "/in/2019/holiday/a.b.png")
                  (mkConfig 4 (Pathlib.Path "out") ".jpg" (Pathlib.Path "/in") ".png"
                            true 80 true true)
                  eq_refl eq_refl eq_refl eq_refl eq_refl ltac:(discriminate))).
Defined.

(** [.xyz] is no registered extension *)
Lemma unsupported_destination_stops_the_run_witness :
  exit_status (main E (Some 4) (fun _ => O) ["/in"; "/out"; "png"; "xyz"] Demo.pictures) = 1
  /\ futures (main E (Some 4) (fun _ => O) ["/in"; "/out"; "png"; "xyz"] Demo.pictures) = []
  /\ Forall (fun ev => is_glob ev = true)
            (calls (main E (Some 4) (fun _ => O) ["/in"; "/out"; "png"; "xyz"] Demo.pictures)).
Proof.
  apply (proj2 (unsupported_destination_stops_the_run E (Some 4) (fun _ => O)
                  ["/in"; "/out"; "png"; "xyz"] Demo.pictures
                  (mkConfig 8 (Pathlib.Path "/out") "xyz" (Pathlib.Path "/in") "png"
                            true 80 true true)
                  eq_refl eq_refl)).
Defined.

Lemma extension_normalization_is_idempotent_witness :
  normalize_ext ".gif" = ".gif" /\ normalize_ext "gif" = ".gif".
Proof.
  split.
  - apply (proj1 (proj2 (extension_normalization_is_idempotent E)) ".gif"). reflexivity.
  - apply (proj1 (proj2 (proj2 (extension_normalization_is_idempotent E))) "gif"). reflexivity.
Defined.

Lemma quality_option_takes_no_value_witness :
  IMAGE_QUALITY (mkConfig 8 (Pathlib.Path "/out") "jpg" (Pathlib.Path "/in") "png"
                          true 80 true true) = 80.
Proof.
  apply (proj1 quality_option_takes_no_value (Some 4)
           ["/in"; "/out"; "png"; "jpg"; "--quality"]).
  reflexivity.
Defined.

(** five files, two of which make their task raise: the run still
    ends with status 0 and [Done.], and the three pictures that could
    be written are in the destination folder at the end *)
Lemma task_exceptions_are_dropped_witness :
  (exit_status (main E (Some 4) (fun _ => O) ["/in"; "/out"; "png"; "jpg"] Demo.pictures) = 0
   /\ uncaught (main E (Some 4) (fun _ => O) ["/in"; "/out"; "png"; "jpg"] Demo.pictures) = []
   /\ last (calls (main E (Some 4) (fun _ => O) ["/in"; "/out"; "png"; "jpg"] Demo.pictures))
      = Some (EvWrite "Done.")
   /\ map fut_file (futures (main E (Some 4) (fun _ => O) ["/in"; "/out"; "png"; "jpg"]
                                  Demo.pictures))
      ≡ₚ [in_ "a.png"; in_ "b.png"; in_ "c.png"; in_ "d.png"; in_ "e.png"]
   /\ Forall (ran_as E (mkConfig 8 (Pathlib.Path "/out") ".jpg" (Pathlib.Path "/in") ".png"
                                 true 80 true true))
             (futures (main E (Some 4) (fun _ => O) ["/in"; "/out"; "png"; "jpg"]
                            Demo.pictures))
   /\ (exists logs body,
         Forall2 (task_ran E (mkConfig 8 (Pathlib.Path "/out") ".jpg" (Pathlib.Path "/in")
                                       ".png" true 80 true true))
                 (futures (main E (Some 4) (fun _ => O) ["/in"; "/out"; "png"; "jpg"]
                                Demo.pictures))
                 logs
         /\ merge_of logs body
         /\ calls (main E (Some 4) (fun _ => O) ["/in"; "/out"; "png"; "jpg"] Demo.pictures)
            = EvGlob "/in/**/*.png" true :: EvGlob "/in/**/*.png" true
                :: body ++ [EvWrite "Done."])
   /\ final_world (main E (Some 4) (fun _ => O) ["/in"; "/out"; "png"; "jpg"] Demo.pictures)
      = replay E (calls (main E (Some 4) (fun _ => O) ["/in"; "/out"; "png"; "jpg"]
                              Demo.pictures))
               Demo.pictures)
  /\ map fut_outcome (futures (main E (Some 4) (fun _ => O) ["/in"; "/out"; "png"; "jpg"]
                                    Demo.pictures))
     = [Normal tt; Normal tt; Normal tt;
        Raised (mkExc OSError "cannot write mode P as JPEG");
        Raised (mkExc UnidentifiedImageError "cannot identify image file '/in/e.png'")]
  /\ map fst (Demo.files (final_world (main E (Some 4) (fun _ => O)
                                            ["/in"; "/out"; "png"; "jpg"] Demo.pictures)))
     = ["/in/a.png"; "/in/b.png"; "/in/c.png"; "/in/d.png"; "/in/e.png";
        "/out/a.jpg"; "/out/b.jpg"; "/out/c.jpg"].
Proof.
  split; [|split; reflexivity].
  eapply (task_exceptions_are_dropped E (Some 4) (fun _ => O)
            ["/in"; "/out"; "png"; "jpg"] Demo.pictures
            (mkConfig 8 (Pathlib.Path "/out") "jpg" (Pathlib.Path "/in") "png"
                      true 80 true true)
            (mkConfig 8 (Pathlib.Path "/out") ".jpg" (Pathlib.Path "/in") ".png"
                      true 80 true true)); reflexivity.
Defined.

End Runs.

(** ** Scenarios *)

Section Scenarios.

Abbreviation E := (Demo.env "/home/user").

Example Path_collapses_separators :
  Pathlib.Path "/tmp//out/./a.tar.gz" = mkPath "/" ["tmp"; "out"; "a.tar.gz"].
Proof. reflexivity. Qed.

Example stem_drops_last_suffix :
  Pathlib.stem (Pathlib.Path "pics/holiday/a.tar.gz") = "a.tar".
Proof. reflexivity. Qed.

Example hidden_file_has_no_suffix : Pathlib.suffix (Pathlib.Path "pics/.hidden") = "".
Proof. reflexivity. Qed.

Example two_leading_separators_are_kept : Pathlib.str (Pathlib.Path "//x/y/") = "//x/y".
Proof. reflexivity. Qed.

Example empty_path_is_dot : Pathlib.str (Pathlib.Path "") = ".".
Proof. reflexivity. Qed.

(** a destination folder that is the root gives a path with two
    leading separators *)
Example destination_under_the_root :
  dest_path_of E (Pathlib.Path "/in/a.png")
               (mkConfig 4 (Pathlib.Path "/") ".jpg" (Pathlib.Path "/in") ".png"
                         true 80 true true)
  = mkPath "//" ["a.jpg"].
Proof. reflexivity. Qed.

Example command_line_with_workers :
  configure_argument_parser (Some 8) ["in"; "out"; "png"; "jpg"; "--nb-workers"; "3"]
  = inl (mkConfig 3 (mkPath "" ["out"]) "jpg" (mkPath "" ["in"]) "png" true 80 true true).
Proof. reflexivity. Qed.

Example command_line_too_short :
  configure_argument_parser None ["in"; "out"; "png"]
  = inr (2, "the following arguments are required").
Proof. reflexivity. Qed.

Example default_workers_are_capped :
  option_map NB_WORKERS
             (match configure_argument_parser (Some 64) ["in"; "out"; "png"; "jpg"] with
              | inl c => Some c
              | inr _ => None
              end) = Some 32.
Proof. reflexivity. Qed.

(** [int] strips white space and accepts underscores between digits *)
Example worker_count_with_spaces :
  option_map NB_WORKERS
             (match configure_argument_parser (Some 8)
                      ["in"; "out"; "png"; "jpg"; "--nb-workers"; " 1_0 "] with
              | inl c => Some c
              | inr _ => None
              end) = Some 10.
Proof. reflexivity. Qed.

(** [-hh] is [-h -h]: the help, status 0 *)
Example help_twice : configure_argument_parser (Some 8) ["-hh"] = inr (0, "usage").
Proof. reflexivity. Qed.

(** the separator goes with [a]; the [--] behind it is all that
    [dest] receives and is removed from it: [dest] is the list [[]]
    and line 44 raises [AttributeError] *)
Example separator_as_a_positional :
  configure_argument_parser (Some 8) ["a"; "--"; "--"; "b"; "c"]
  = inr (1, "AttributeError: 'list' object has no attribute").
Proof. reflexivity. Qed.

(** the separator goes with the positional behind it, which keeps its
    string *)
Example separator_in_front :
  configure_argument_parser (Some 8) ["--"; "--"; "b"; "c"; "d"]
  = inl (mkConfig 12 (mkPath "" ["b"]) "d" (mkPath "" ["--"]) "c" true 80 true true).
Proof. reflexivity. Qed.

(** a separator that no positional takes is left over *)
Example separator_left_over :
  configure_argument_parser (Some 8) ["a"; "b"; "c"; "d"; "--optimize"; "--"]
  = inr (2, "unrecognized arguments").
Proof. reflexivity. Qed.

(** two opaque pictures to JPEG: both files are written, nothing is
    reported *)
Example opaque_pictures_are_converted :
  run (convert E (Pathlib.Path "/in/a.png") (Demo.config ".jpg")) Demo.pictures
  = (Normal tt,
     {| world := Demo.write_file "/out/a.jpg" (Demo.Picture "RGB") Demo.pictures;
        log := [EvOpen (Pathlib.Path "/in/a.png");
                EvSave (Demo.mkImage "RGB") (Pathlib.Path "/out/a.jpg") (Some "JPEG")
                       80 true true;
                EvClose (Demo.mkImage "RGB")] |}).
Proof. reflexivity. Qed.

(** a picture with an alpha channel to JPEG: [c.jpg] is written as RGB *)
Example alpha_picture_is_flattened :
  world (run (convert E (Pathlib.Path "/in/c.png") (Demo.config ".jpg")) Demo.pictures).2
  = Demo.write_file "/out/c.jpg" (Demo.Picture "RGB") Demo.pictures.
Proof. reflexivity. Qed.

(** the retry of the fallback fails on a full device: the task
    raises, and no error line was written *)
Example failed_retry_leaves_the_task :
  run (convert E (Pathlib.Path "/in/c.png") (Demo.config ".jpg")) Demo.pictures_no_space
  = (Raised (mkExc OSError "[Errno 28] No space left on device"),
     {| world := Demo.pictures_no_space;
        log := [EvOpen (Pathlib.Path "/in/c.png");
                EvSave (Demo.mkImage "RGBA") (Pathlib.Path "/out/c.jpg") (Some "JPEG")
                       80 true true;
                EvWrite "Warning: file /in/c.png has a transparency layer, message: cannot write mode RGBA as JPEG";
                EvConvert (Demo.mkImage "RGBA") "RGB";
                EvSave (Demo.mkImage "RGB") (Pathlib.Path "/out/c.jpg") (Some "JPEG")
                       80 true true;
                EvClose (Demo.mkImage "RGBA")] |}).
Proof. reflexivity. Qed.

(** a pool of no worker is refused before any task *)
Example no_worker_no_run :
  exit_status (main E (Some 4) (fun _ => O)
                    ["/in"; "/out"; "png"; "jpg"; "--nb-workers"; "0"] Demo.pictures) = 1.
Proof. reflexivity. Qed.

(** the scheduler may complete the tasks in another order *)
Example last_pending_first :
  map fut_file (futures (main E (Some 4) (fun n => (4 - n)%nat)
                              ["/in"; "/out"; "png"; "jpg"] Demo.pictures))
  = map Pathlib.Path ["/in/e.png"; "/in/d.png"; "/in/c.png"; "/in/b.png"; "/in/a.png"].
Proof. reflexivity. Qed.

End Scenarios.

(** * Further properties of the script *)

(** ** The conversion task, path by path *)

Section TaskProperties.

Context {Image World : Type} (env : Env Image World).

Implicit Types (src : PurePath) (config : Config) (w : World).

Ltac run_stmt :=
  unfold run, convert, bind, with_image, try_except, Image_open, exists_, tqdm_write,
    Image_save, __handle_jpg_transparency, Image_convert, ret, emit,
    codec_save, save_call, exists_note in *;
  cbn [world log].

Ltac case_calls :=
  repeat match goal with
    | |- context [pil_open ?e ?p ?w] =>
        destruct (pil_open e p w) as [[?|?] ?] eqn:?; cbn [world log]
    | |- context [pil_save ?e ?i ?d ?f ?q ?o ?p ?w] =>
        destruct (pil_save e i d f q o p w) as [[[]|?] ?] eqn:?; cbn [world log]
    | |- context [pil_convert ?e ?i ?m ?w] =>
        destruct (pil_convert e i m w) as [[?|?] ?] eqn:?; cbn [world log]
    | |- context [path_exists ?e ?p ?w] =>
        destruct (path_exists e p w) eqn:?; cbn [world log]
    | |- context [isinstance_OSError ?c] =>
        destruct (isinstance_OSError c) eqn:?; cbn [world log]
    | |- context [isinstance_Exception ?c] =>
        destruct (isinstance_Exception c) eqn:?; cbn [world log]
    | |- context [Str.contains ?a ?b] =>
        destruct (Str.contains a b) eqn:?; cbn [world log]
    end.

(** X1. The [with] statement of line 84: once [Image.open] has
    returned an image, the last call of the task closes that image,
    however the body ended, and nothing before it is a close. *)
Theorem opened_image_is_closed src config w im w1 :
  pil_open env src w = (Normal im, w1) ->
  exists before w',
    (run (convert env src config) w).2
    = {| world := pil_close env im w'; log := before ++ [EvClose im] |}
    /\ only is_close before = [].
Proof.
  intros Hopen. run_stmt. rewrite Hopen. cbn [world log].
  case_calls; cbn [snd]; eexists _, _; (split; [reflexivity|reflexivity]).
Qed.



(** X3. The plain success of lines 84-93: the image opens, nothing
    exists at the destination and the save returns; the task returns
    and has written no line. *)
Theorem fresh_destination_is_written_silently src config w im w1 w2 :
  pil_open env src w = (Normal im, w1) ->
  path_exists env (dest_path_of env src config) w1 = false ->
  codec_save env im src config w1 = (Normal tt, w2) ->
  run (convert env src config) w
  = (Normal tt,
     {| world := pil_close env im w2;
        log := [EvOpen src; save_call env im src config; EvClose im] |}).
Proof.
  intros Hopen Hex Hsave. run_stmt.
  rewrite Hopen. cbn [world log]. rewrite Hex. cbn [world log]. now rewrite Hsave.
Qed.

(** X5. Whatever the codec does, every save of a task goes to the one
    destination path of line 83, with the format registered for its
    suffix and the quality, optimize and progressive of the
    configuration; every conversion asks for [RGB]; the only file
    opened is the source. *)
Theorem every_save_targets_the_destination src config w :
  Forall (fun ev =>
            match ev with
            | EvOpen p => p = src
            | EvSave _ dest format quality optimize progressive =>
                dest = dest_path_of env src config
                /\ format = registered_extensions env
                              !! Pathlib.suffix (dest_path_of env src config)
                /\ quality = IMAGE_QUALITY config
                /\ optimize = OPTIMIZE config
                /\ progressive = PROGRESSIVE config
            | EvConvert _ mode => mode = "RGB"
            | EvGlob _ _ => False
            | _ => True
            end)
         (log (run (convert env src config) w).2).
Proof.
  eapply Forall_impl; [apply convert_events|].
  intros [] H; cbn in *; try tauto.
  destruct H as [-> H]. tauto.
Qed.

(** X6. The calls of one task: the source is opened once; there are
    at most two saves, at most one conversion, at most two written
    lines and at most one close. *)
Theorem task_call_counts src config w :
  only is_open (log (run (convert env src config) w).2) = [EvOpen src]
  /\ (length (only is_save (log (run (convert env src config) w).2)) <= 2)%nat
  /\ (length (only is_convert (log (run (convert env src config) w).2)) <= 1)%nat
  /\ (length (only is_write (log (run (convert env src config) w).2)) <= 2)%nat
  /\ (length (only is_close (log (run (convert env src config) w).2)) <= 1)%nat.
Proof.
  run_stmt. case_calls; cbn; repeat split; lia.
Qed.

End TaskProperties.

(** ** The suffix of the destination and the format of the save *)

Section DestinationFormat.

Context {Image World : Type} (env : Env Image World).

Lemma rfind_dot_none e : Str.no_dot e = true -> Str.rfind_dot e = None.
Proof.
  induction e as [|c e IH]; [reflexivity|]. cbn [Str.no_dot Str.rfind_dot].
  intros [Hc He]%andb_true_iff. rewrite (IH He).
  now destruct (Str.is_dot c).
Qed.

(** the last dot of [s.e] is the one in front of a dotless [e] *)
Lemma rfind_dot_app s e :
  Str.no_dot e = true ->
  Str.rfind_dot (s +:+ String "." e) = Some (String.length s).
Proof.
  intros He. induction s as [|c s IH].
  - change ("" +:+ String "." e) with (String "." e).
    cbn [Str.rfind_dot]. now rewrite (rfind_dot_none _ He).
  - rewrite append_cons. cbn [Str.rfind_dot String.length]. now rewrite IH.
Qed.

Lemma length_app_s (a b : string) :
  String.length (a +:+ b) = (String.length a + String.length b)%nat.
Proof.
  induction a as [|c a IH]; [reflexivity|].
  rewrite append_cons. cbn [String.length]. now rewrite IH.
Qed.

Lemma drop_app s t : Str.drop (String.length s) (s +:+ t) = t.
Proof.
  induction s as [|c s IH]; [now destruct t|].
  rewrite append_cons. cbn [String.length Str.drop]. exact IH.
Qed.

Lemma suffix_at_app s e :
  s <> "" -> e <> "" -> Str.no_dot e = true ->
  Pathlib.suffix_at (s +:+ String "." e) = Some (String.length s).
Proof.
  intros Hs He Hdot. unfold Pathlib.suffix_at.
  rewrite rfind_dot_app by assumption. rewrite length_app_s. cbn [String.length].
  destruct s as [|c s]; [congruence|]. destruct e as [|d e]; [congruence|].
  cbn [String.length].
  replace (0 <? S (String.length s))%nat with true by (symmetry; apply Nat.ltb_lt; lia).
  replace (S (String.length s) <? S (String.length s) + S (S (String.length e)) - 1)%nat
    with true by (symmetry; apply Nat.ltb_lt; lia).
  reflexivity.
Qed.

(** the stem of a file that has a name is not empty *)
Lemma stem_not_empty p : Pathlib.name p <> "" -> Pathlib.stem p <> "".
Proof.
  unfold Pathlib.stem. intros Hn.
  destruct (Pathlib.suffix_at (Pathlib.name p)) as [i|] eqn:E; [|exact Hn].
  unfold Pathlib.suffix_at in E.
  destruct (Str.rfind_dot (Pathlib.name p)) as [j|]; [|discriminate].
  destruct (0 <? j)%nat eqn:Hj; [|discriminate]. cbn [andb] in E.
  destruct (j <? _)%nat; [|discriminate]. injection E as <-.
  apply Nat.ltb_lt in Hj. destruct j as [|j]; [lia|].
  destruct (Pathlib.name p) as [|c n]; [congruence|]. discriminate.
Qed.

(** X7. For a source that has a name and a destination extension
    made of a dot and a non-empty part without dot or separator, the
    suffix of the destination path is that extension, so the format
    of every save (line 86) is the one the registry holds for the
    configured extension. *)
Theorem destination_suffix_is_the_extension src config e w :
  Pathlib.wf_path (getcwd env) = true ->
  Pathlib.wf_path (DESTINATION_FOLDER config) = true ->
  Pathlib.wf_path src = true ->
  Pathlib.name src <> "" ->
  DESTINATION_FILE_TYPE config = String "." e ->
  e <> "" -> Str.no_dot e = true -> Str.no_sep e = true ->
  Pathlib.suffix (dest_path_of env src config) = DESTINATION_FILE_TYPE config
  /\ Forall (fun ev =>
               match ev with
               | EvSave _ _ format _ _ _ =>
                   format = registered_extensions env !! DESTINATION_FILE_TYPE config
               | _ => True
               end)
            (log (run (convert env src config) w).2).
Proof.
  intros Hcwd Hdst Hsrc Hname Hext He Hdot Hsep.
  assert (Hsuffix : Pathlib.suffix (dest_path_of env src config) = DESTINATION_FILE_TYPE config).
  { set (folder := Pathlib.absolute (getcwd env) (DESTINATION_FOLDER config)).
    set (file := Pathlib.stem src +:+ DESTINATION_FILE_TYPE config).
    assert (Hfolder : Pathlib.wf_path folder = true) by now apply absolute_wf.
    assert (Hfile : Pathlib.wf_name file = true).
    { apply wf_name_stem_ext; [assumption| | |]; rewrite Hext.
      - cbn [Str.no_sep]. now rewrite Hsep.
      - apply startswith_dot. eauto.
      - intros [= ->]. congruence. }
    assert (Hn : Pathlib.name (dest_path_of env src config) = file).
    { unfold Pathlib.name, dest_path_of. fold folder.
      replace (Pathlib.str folder +:+ "/" +:+ Pathlib.stem src +:+ DESTINATION_FILE_TYPE config)
        with (Pathlib.str folder +:+ "/" +:+ file) by reflexivity.
      rewrite names_Path_child by assumption. apply last_last. }
    unfold Pathlib.suffix. rewrite Hn. unfold file. rewrite Hext.
    rewrite suffix_at_app by (try apply stem_not_empty; assumption).
    apply drop_app. }
  split; [exact Hsuffix|].
  eapply Forall_impl; [apply convert_events|].
  intros [] H; cbn in *; try tauto.
  destruct H as [-> [-> _]]. now rewrite Hsuffix.
Qed.

End DestinationFormat.

(** ** The validation, check by check *)

Section ValidationProperties.

Context {Image World : Type} (env : Env Image World).

Implicit Types (config : Config) (s : State Image World) (w : World).

Ltac run_checks :=
  unfold check_config, bind, is_dir, exists_, glob, raise_SystemExit, raise, ret;
  cbn [SOURCE_FOLDER DESTINATION_FOLDER SOURCE_FILE_TYPE DESTINATION_FILE_TYPE
       IS_RECURSIVE normalized set_SOURCE_FILE_TYPE set_DESTINATION_FILE_TYPE].

(** what a normal return of [check_config] has checked *)
Lemma check_config_normal config s config' s' :
  check_config env config s = (Normal config', s') ->
  config' = normalized config
  /\ s' = emit (validation_glob config) s
  /\ path_is_dir env (SOURCE_FOLDER config) (world s) = true
  /\ path_is_dir env (DESTINATION_FOLDER config) (world s) = true
  /\ path_exists env (SOURCE_FOLDER config) (world s) = true
  /\ path_exists env (DESTINATION_FOLDER config) (world s) = true
  /\ fs_glob env (glob_pattern (SOURCE_FOLDER config) (normalize_ext (SOURCE_FILE_TYPE config)))
             (IS_RECURSIVE config) (world s) <> []
  /\ is_registered env (normalize_ext (DESTINATION_FILE_TYPE config)) = true
  /\ is_registered env (normalize_ext (SOURCE_FILE_TYPE config)) = true.
Proof.
  run_checks.
  destruct (path_is_dir env (SOURCE_FOLDER config) (world s)); cbn [negb]; [|discriminate].
  destruct (path_is_dir env (DESTINATION_FOLDER config) (world s)); cbn [negb];
    [|discriminate].
  destruct (path_exists env (SOURCE_FOLDER config) (world s)); cbn [negb]; [|discriminate].
  destruct (path_exists env (DESTINATION_FOLDER config) (world s)); cbn [negb];
    [|discriminate].
  destruct (bool_decide_reflect
              (fs_glob env (glob_pattern (SOURCE_FOLDER config)
                                         (normalize_ext (SOURCE_FILE_TYPE config)))
                       (IS_RECURSIVE config) (world s) = [])) as [?|Hne]; [discriminate|].
  destruct (is_registered env (normalize_ext (DESTINATION_FILE_TYPE config)));
    cbn [negb]; [|discriminate].
  destruct (is_registered env (normalize_ext (SOURCE_FILE_TYPE config)));
    cbn [negb]; [|discriminate].
  cbn [negb]. intros [= <- <-]. repeat split; auto.
Qed.

Lemma normalized_idem config : normalized (normalized config) = normalized config.
Proof.
  unfold normalized, set_DESTINATION_FILE_TYPE, set_SOURCE_FILE_TYPE.
  cbn [NB_WORKERS SOURCE_FOLDER DESTINATION_FOLDER SOURCE_FILE_TYPE DESTINATION_FILE_TYPE
       IS_RECURSIVE IMAGE_QUALITY OPTIMIZE PROGRESSIVE].
  now rewrite !normalize_ext_idem.
Qed.

(** the answers that let a configuration through *)
Lemma check_config_passes config s :
  path_is_dir env (SOURCE_FOLDER config) (world s) = true ->
  path_is_dir env (DESTINATION_FOLDER config) (world s) = true ->
  path_exists env (SOURCE_FOLDER config) (world s) = true ->
  path_exists env (DESTINATION_FOLDER config) (world s) = true ->
  fs_glob env (glob_pattern (SOURCE_FOLDER config) (normalize_ext (SOURCE_FILE_TYPE config)))
          (IS_RECURSIVE config) (world s) <> [] ->
  is_registered env (normalize_ext (DESTINATION_FILE_TYPE config)) = true ->
  is_registered env (normalize_ext (SOURCE_FILE_TYPE config)) = true ->
  check_config env config s = (Normal (normalized config), emit (validation_glob config) s).
Proof.
  intros Hsd Hdd Hse Hde Hglob Hrd Hrs. unfold validation_glob. run_checks.
  rewrite Hsd. cbn [negb]. rewrite Hdd. cbn [negb].
  rewrite Hse. cbn [negb]. rewrite Hde. cbn [negb world emit].
  rewrite bool_decide_eq_false_2 by exact Hglob.
  rewrite Hrd, Hrs. reflexivity.
Qed.

(** X8. A configuration that [check_config] lets through: both
    folders are directories and exist, the discovery of line 50 found
    at least one file, both extensions carry their dot and are keys of
    the codec's registry. *)
Theorem validated_configuration_is_sound config s config' s' :
  check_config env config s = (Normal config', s') ->
  path_is_dir env (SOURCE_FOLDER config') (world s') = true
  /\ path_is_dir env (DESTINATION_FOLDER config') (world s') = true
  /\ path_exists env (SOURCE_FOLDER config') (world s') = true
  /\ path_exists env (DESTINATION_FOLDER config') (world s') = true
  /\ fs_glob env (glob_pattern (SOURCE_FOLDER config') (SOURCE_FILE_TYPE config'))
             (IS_RECURSIVE config') (world s') <> []
  /\ Str.startswith (SOURCE_FILE_TYPE config') "." = true
  /\ Str.startswith (DESTINATION_FILE_TYPE config') "." = true
  /\ is_Some (registered_extensions env !! SOURCE_FILE_TYPE config')
  /\ is_Some (registered_extensions env !! DESTINATION_FILE_TYPE config').
Proof.
  intros H. apply check_config_normal in H
    as (-> & -> & Hsd & Hdd & Hse & Hde & Hglob & Hrd & Hrs).
  cbn [world emit SOURCE_FOLDER DESTINATION_FOLDER SOURCE_FILE_TYPE DESTINATION_FILE_TYPE
       IS_RECURSIVE normalized set_SOURCE_FILE_TYPE set_DESTINATION_FILE_TYPE].
  unfold is_registered in Hrd, Hrs.
  apply bool_decide_eq_true in Hrd. apply bool_decide_eq_true in Hrs.
  repeat split; auto using normalize_ext_starts.
Qed.

(** X9. [check_config] only looks: it leaves the world as it found
    it, however it ends, and the configuration it returns has every
    field but the two extensions unchanged. *)
Theorem check_config_touches_two_fields_only config s :
  world (check_config env config s).2 = world s
  /\ (forall config', (check_config env config s).1 = Normal config' ->
        NB_WORKERS config' = NB_WORKERS config
        /\ SOURCE_FOLDER config' = SOURCE_FOLDER config
        /\ DESTINATION_FOLDER config' = DESTINATION_FOLDER config
        /\ IS_RECURSIVE config' = IS_RECURSIVE config
        /\ IMAGE_QUALITY config' = IMAGE_QUALITY config
        /\ OPTIMIZE config' = OPTIMIZE config
        /\ PROGRESSIVE config' = PROGRESSIVE config).
Proof.
  destruct (check_config_cases env config s) as [[msg ->]|[[msg ->]|[-> _]]];
    cbn [fst snd world emit]; (split; [reflexivity|]).
  - intros ? [=].
  - intros ? [=].
  - intros config' [= <-]. repeat split; reflexivity.
Qed.

(** X10. Validating twice: the configuration that [check_config]
    returned passes [check_config] again in the state it left, and
    comes back as it is. *)
Theorem check_config_passes_again config s config' s' :
  check_config env config s = (Normal config', s') ->
  check_config env config' s' = (Normal config', emit (validation_glob config') s').
Proof.
  intros H. apply check_config_normal in H
    as (-> & -> & Hsd & Hdd & Hse & Hde & Hglob & Hrd & Hrs).
  rewrite check_config_passes; [now rewrite normalized_idem|..];
    cbn [world emit SOURCE_FOLDER DESTINATION_FOLDER SOURCE_FILE_TYPE DESTINATION_FILE_TYPE
         IS_RECURSIVE normalized set_SOURCE_FILE_TYPE set_DESTINATION_FILE_TYPE];
    rewrite ?normalize_ext_idem; assumption.
Qed.

(** the validation also stops on an unregistered source extension *)
Lemma check_config_unregistered_source config s :
  is_registered env (normalize_ext (SOURCE_FILE_TYPE config)) = false ->
  exists msg s',
    check_config env config s = (Raised (mkExc SystemExit msg), s')
    /\ (log s' = log s \/ log s' = log s ++ [validation_glob config]).
Proof.
  intros Hreg.
  destruct (check_config_cases env config s) as [[msg ->]|[[msg ->]|[_ [_ H]]]].
  - exists msg, s. auto.
  - exists msg, (emit (validation_glob config) s). auto.
  - congruence.
Qed.

(** X11. A source extension that, with its leading dot, is no key of
    the registry stops the run as an unknown destination extension
    does: [SystemExit], status 1, no task, discovery calls only. *)
Theorem unsupported_source_stops_the_run cpu_count pick argv w config :
  configure_argument_parser cpu_count argv = inl config ->
  is_registered env (normalize_ext (SOURCE_FILE_TYPE config)) = false ->
  exit_status (main env cpu_count pick argv w) = 1
  /\ futures (main env cpu_count pick argv w) = []
  /\ Forall (fun ev => is_glob ev = true) (calls (main env cpu_count pick argv w)).
Proof.
  intros Hparse Hreg.
  destruct (check_config_unregistered_source config {| world := w; log := [] |} Hreg)
    as [msg [s' [Hcheck Hlog]]].
  unfold main. rewrite Hparse, (script_validation_raises env pick _ _ _ _ Hcheck).
  cbn [exit_status futures calls]. split; [reflexivity|]. split; [reflexivity|].
  destruct Hlog as [->| ->]; cbn [log app].
  - by apply Forall_nil.
  - apply Forall_cons. split; [reflexivity|by apply Forall_nil].
Qed.

(** X12. A source folder in which the discovery of line 50 finds
    nothing: [check_config] raises [SystemExit] with a message that
    names the extension with its dot, and the run ends with status 1
    and that message, before any task. *)
Theorem empty_source_folder_stops_the_run cpu_count pick argv w config :
  configure_argument_parser cpu_count argv = inl config ->
  path_is_dir env (SOURCE_FOLDER config) w = true ->
  path_is_dir env (DESTINATION_FOLDER config) w = true ->
  path_exists env (SOURCE_FOLDER config) w = true ->
  path_exists env (DESTINATION_FOLDER config) w = true ->
  fs_glob env (glob_pattern (SOURCE_FOLDER config) (normalize_ext (SOURCE_FILE_TYPE config)))
          (IS_RECURSIVE config) w = [] ->
  main env cpu_count pick argv w
  = mkProcess 1
      ["Error: Source folder does not contain any file of type "
       +:+ normalize_ext (SOURCE_FILE_TYPE config)]
      [validation_glob config] [] w.
Proof.
  intros Hparse Hsd Hdd Hse Hde Hglob.
  assert (Hcheck :
    check_config env config {| world := w; log := [] |}
    = (Raised (mkExc SystemExit
                 ("Error: Source folder does not contain any file of type "
                  +:+ normalize_ext (SOURCE_FILE_TYPE config))),
       emit (validation_glob config) {| world := w; log := [] |})).
  { unfold validation_glob. run_checks. cbn [world].
    rewrite Hsd. cbn [negb world]. rewrite Hdd. cbn [negb world].
    rewrite Hse. cbn [negb world]. rewrite Hde. cbn [negb world]. rewrite Hglob.
    reflexivity. }
  unfold main. rewrite Hparse, (script_validation_raises env pick _ _ _ _ Hcheck).
  reflexivity.
Qed.

End ValidationProperties.

(** ** The command line, option by option *)

Section CommandLineProperties.

Lemma find_action_In o table a :
  Argparse.find_action o table = Some a -> exists k, In (k, a) table.
Proof.
  induction table as [|[k b] table IH]; cbn [Argparse.find_action]; [discriminate|].
  destruct (String.eqb o k).
  - intros [= <-]. exists k. now left.
  - intros H. destruct (IH H) as [k' Hin]. exists k'. now right.
Qed.

Lemma option_tuples_In t a explicit_arg :
  In (Argparse.Optional a explicit_arg) (Argparse.option_tuples t) ->
  exists k, In (k, a) Argparse.optionals.
Proof.
  unfold Argparse.option_tuples. intros Hin.
  assert (H : exists ka, In ka Argparse.optionals /\ ka.2 = a).
  { destruct (Str.startswith t "--").
    - destruct (Argparse.split_eq t) as [prefix e].
      apply in_flat_map in Hin as [[k b] [Hk Hin]]. exists (k, b). split; [exact Hk|].
      destruct (Str.startswith k prefix); [|contradiction].
      destruct Hin as [[= <- _]|[]]. reflexivity.
    - apply in_flat_map in Hin as [[k b] [Hk Hin]]. exists (k, b). split; [exact Hk|].
      destruct (String.eqb k (Str.take 2 t)).
      + destruct Hin as [[= <- _]|[]]. reflexivity.
      + destruct (Str.startswith k t); [|contradiction].
        destruct Hin as [[= <- _]|[]]. reflexivity. }
  destruct H as [[k b] [Hin' <-]]. now exists k.
Qed.

(** an action found for a token is an action of the table *)
Lemma parse_optional_In t a explicit_arg :
  Argparse.parse_optional t = Argparse.Optional a explicit_arg ->
  exists k, In (k, a) Argparse.optionals.
Proof.
  unfold Argparse.parse_optional.
  destruct (negb (Str.startswith t "-")); [discriminate|].
  destruct (Argparse.find_action t Argparse.optionals) as [b|] eqn:Ht.
  { intros [= <- _]. now apply find_action_In in Ht. }
  destruct (String.length t =? 1)%nat; [discriminate|].
  assert (Htuples :
    match Argparse.option_tuples t with
    | _ :: _ :: _ => Argparse.Ambiguous
    | [tok] => tok
    | [] => if Argparse.looks_negative_number t then Argparse.Positional
            else if Argparse.has_space t then Argparse.Positional
            else Argparse.Unrecognized
    end = Argparse.Optional a explicit_arg -> exists k, In (k, a) Argparse.optionals).
  { pose proof (option_tuples_In t a explicit_arg) as Hin.
    destruct (Argparse.option_tuples t) as [|tok [|tok' l]]; try discriminate.
    - destruct (Argparse.looks_negative_number t), (Argparse.has_space t); discriminate.
    - intros ->. apply Hin. now left. }
  destruct (Argparse.split_eq t) as [o [v|]]; [|exact Htuples].
  destruct (Argparse.find_action o Argparse.optionals) as [b|] eqn:Ho; [|exact Htuples].
  intros [= <- _]. now apply find_action_In in Ho.
Qed.

Lemma finish_Args ns pos extras ns' :
  Argparse.finish ns pos extras = Argparse.Args ns' ->
  exists a b c d, pos = [a; b; c; d] /\ ns' = Argparse.set_positionals ns a b c d.
Proof.
  unfold Argparse.finish, Argparse.usage.
  destruct pos as [|a [|b [|c [|d [|e pos]]]]]; try discriminate.
  destruct extras; [discriminate|]. intros [= <-]. now exists a, b, c, d.
Qed.

(** A property of the namespace that every option of the table keeps
    holds of the namespace at the end of the command line, in which
    only the four positional entries are then filled. *)
Lemma scan_result (P : Argparse.Namespace -> Prop) :
  Forall (fun ka => Argparse.preserves P ka.2) Argparse.optionals ->
  forall n toks ns pos extras ns',
    (length toks <= n)%nat ->
    P ns ->
    Argparse.scan toks ns pos extras = Argparse.Args ns' ->
    exists ns0 a b c d, P ns0 /\ ns' = Argparse.set_positionals ns0 a b c d.
Proof.
  intros Htable.
  assert (Hfinish : forall ns pos extras ns', P ns ->
            Argparse.finish ns pos extras = Argparse.Args ns' ->
            exists ns0 a b c d, P ns0 /\ ns' = Argparse.set_positionals ns0 a b c d).
  { intros ns pos extras ns' HP H. apply finish_Args in H as (a & b & c & d & _ & ->).
    now exists ns, a, b, c, d. }
  induction n as [|n IH]; intros toks ns pos extras ns' Hlen HP.
  - destruct toks; [|cbn in Hlen; lia]. cbn [Argparse.scan]. now apply Hfinish.
  - destruct toks as [|t rest]; cbn [Argparse.scan]; [now apply Hfinish|].
    cbn [length] in Hlen.
    destruct (String.eqb t "--").
    { intros H%after_separator_Args. now apply Hfinish in H. }
    pose proof (parse_optional_In t) as Hin.
    unfold Argparse.usage, Argparse.store_int.
    destruct (Argparse.parse_optional t) as [|a [v|]| |]; try discriminate.
    + destruct rest as [|t' rest']; [apply IH; [cbn; lia|exact HP]|].
      destruct (String.eqb t' "--"); [|apply IH; [lia|exact HP]].
      intros H%after_separator_Args. now apply Hfinish in H.
    + destruct (Hin a (Some v) eq_refl) as [k Hk].
      pose proof (proj1 (Forall_forall _ _) Htable _ (proj2 (list_elem_of_In _ _) Hk)) as Ha.
      cbn [snd] in Ha. destruct a; try discriminate.
      * destruct (Argparse.int_of_string v); [|discriminate].
        apply IH; [lia|]. now apply Ha.
      * destruct (Argparse.help_cluster t v); discriminate.
    + destruct (Hin a None eq_refl) as [k Hk].
      pose proof (proj1 (Forall_forall _ _) Htable _ (proj2 (list_elem_of_In _ _) Hk)) as Ha.
      cbn [snd] in Ha. destruct a; cbn in Ha; try discriminate.
      * destruct rest as [|v rest']; [discriminate|].
        destruct (Argparse.is_argument v); [|discriminate].
        destruct (Argparse.int_of_string v); [|discriminate].
        apply IH; [cbn [length] in Hlen; lia|]. now apply Ha.
      * apply IH; [lia|]. now apply Ha.
      * apply IH; [lia|]. now apply Ha.
    + apply IH; [lia|exact HP].
Qed.

Lemma parse_args_result (P : Argparse.Namespace -> Prop) cpu_count argv ns' :
  Forall (fun ka => Argparse.preserves P ka.2) Argparse.optionals ->
  P (Argparse.defaults cpu_count) ->
  Argparse.parse_args cpu_count argv = Argparse.Args ns' ->
  exists ns0 a b c d, P ns0 /\ ns' = Argparse.set_positionals ns0 a b c d.
Proof.
  intros Htable HP. unfold Argparse.parse_args, Argparse.usage.
  destruct (existsb _ _); [discriminate|].
  now apply (scan_result P Htable (length argv)).
Qed.

(** X13. The three [store_true] options are declared with
    [default=True] (lines 66-69 and 72-73): whatever the command line,
    a parsed configuration has optimize, progressive and recursive
    switched on. *)
Theorem flags_are_always_on cpu_count argv config :
  configure_argument_parser cpu_count argv = inl config ->
  OPTIMIZE config = true /\ PROGRESSIVE config = true /\ IS_RECURSIVE config = true.
Proof.
  unfold configure_argument_parser.
  destruct (Argparse.parse_args cpu_count argv) as [ns|] eqn:E; [|discriminate].
  intros [= <-].
  apply (parse_args_result Argparse.flags_on) in E as (ns0 & a & b & c & d & HP & ->).
  - exact HP.
  - unfold Argparse.optionals.
    repeat (apply Forall_cons; split;
            [cbn; unfold Argparse.flags_on; cbn; try tauto|]).
    by apply Forall_nil.
  - repeat split.
Qed.

(** X14. The two folders of a parsed configuration are paths as
    [Path] builds them from the first two positional strings: a root
    among the three POSIX roots, no empty component, no component
    [.], no separator inside a component.  (A command line that
    leaves a positional with a list gives no configuration, see
    [Argparse.after_separator].) *)
Theorem parsed_folders_are_well_formed cpu_count argv config :
  configure_argument_parser cpu_count argv = inl config ->
  Pathlib.wf_path (SOURCE_FOLDER config) = true
  /\ Pathlib.wf_path (DESTINATION_FOLDER config) = true.
Proof.
  unfold configure_argument_parser.
  destruct (Argparse.parse_args cpu_count argv) as [ns|] eqn:E; [|discriminate].
  intros [= <-].
  apply (parse_args_result (fun _ => True)) in E as (ns0 & a & b & c & d & _ & ->).
  - cbn. split; apply Path_wf.
  - unfold Argparse.optionals.
    repeat (apply Forall_cons; split; [cbn; auto|]). by apply Forall_nil.
  - exact I.
Qed.

Lemma dashless_is_positional t :
  Str.startswith t "-" = false ->
  String.eqb t "--" = false /\ Argparse.parse_optional t = Argparse.Positional.
Proof.
  intros H. split.
  - destruct (String.eqb_spec t "--") as [->|]; [discriminate H|reflexivity].
  - unfold Argparse.parse_optional. now rewrite H.
Qed.

Lemma scan_dashless toks :
  Forall (fun t => Str.startswith t "-" = false) toks ->
  forall ns pos extras,
    Argparse.scan toks ns pos extras = Argparse.finish ns (pos ++ toks) extras.
Proof.
  induction 1 as [|t toks Ht Htoks IH]; intros ns pos extras; cbn [Argparse.scan].
  - now rewrite app_nil_r.
  - destruct (dashless_is_positional t Ht) as [-> ->].
    destruct Htoks as [|t' toks' Ht' _].
    + cbn [Argparse.scan]. reflexivity.
    + destruct (dashless_is_positional t' Ht') as [-> _].
      rewrite IH, <- app_assoc. reflexivity.
Qed.

Lemma dashless_not_ambiguous toks :
  Forall (fun t => Str.startswith t "-" = false) toks ->
  existsb Argparse.is_ambiguous (Argparse.before_separator toks) = false.
Proof.
  induction 1 as [|t toks Ht _ IH]; [reflexivity|]. cbn [Argparse.before_separator].
  destruct (dashless_is_positional t Ht) as [-> Hp]. cbn [existsb].
  unfold Argparse.is_ambiguous at 1. now rewrite Hp.
Qed.

(** X15. With no option on the command line the worker count is the
    default of line 64, [min(32, (os.cpu_count() or 1) + 4)]: it lies
    between 5 and 32, so the pool is never refused. *)
Theorem default_worker_count_bounds cpu_count argv config :
  match cpu_count with Some n => 0 <= n | None => True end ->
  Forall (fun t => Str.startswith t "-" = false) argv ->
  configure_argument_parser cpu_count argv = inl config ->
  NB_WORKERS config = Z.min 32 (Argparse.cpu_count_or_1 cpu_count + 4)
  /\ 5 <= NB_WORKERS config <= 32.
Proof.
  intros Hcpu Hargv. unfold configure_argument_parser, Argparse.parse_args.
  rewrite (dashless_not_ambiguous _ Hargv), (scan_dashless _ Hargv).
  destruct (Argparse.finish _ _ _) as [ns|] eqn:E; [|discriminate].
  intros [= <-]. apply finish_Args in E as (a & b & c & d & _ & ->).
  cbn [NB_WORKERS Config_init Argparse.nb_workers Argparse.set_positionals Argparse.defaults].
  split; [reflexivity|].
  unfold Argparse.cpu_count_or_1. destruct cpu_count as [n|]; [|lia].
  destruct (Z.eqb_spec n 0); lia.
Qed.

Lemma finish_Exit ns pos extras status message :
  Argparse.finish ns pos extras = Argparse.Exit status message -> status = 2.
Proof.
  unfold Argparse.finish, Argparse.usage.
  destruct pos as [|a [|b [|c [|d [|e pos]]]]]; try (now intros [= <- _]).
  destruct extras; [now intros [= <- _]|discriminate].
Qed.

Lemma after_separator_Exit ns pos trailing rest extras status message :
  Argparse.after_separator ns pos trailing rest extras = Argparse.Exit status message ->
  status = 1 \/ status = 2.
Proof.
  unfold Argparse.after_separator, Argparse.usage. destruct rest as [|t rest].
  - destruct trailing; [intros H%finish_Exit; now right|].
    destruct (Argparse.finish ns pos extras) eqn:E; [intros [= <- _]; now right|].
    intros [= <- _]. apply finish_Exit in E. now right.
  - destruct (Argparse.finish ns (pos ++ t :: rest) extras) eqn:E.
    + destruct (forallb _ _); [discriminate|]. intros [= <- _]. now left.
    + intros [= <- _]. apply finish_Exit in E. now right.
Qed.

(** the parser leaves with status 0, for the help, or 2; status 1 is
    the end of a run whose configuration holds a list *)
Lemma scan_Exit n :
  forall toks ns pos extras status message,
    (length toks <= n)%nat ->
    Argparse.scan toks ns pos extras = Argparse.Exit status message ->
    status = 0 \/ status = 1 \/ status = 2.
Proof.
  induction n as [|n IH]; intros toks ns pos extras status message Hlen.
  - destruct toks; [|cbn in Hlen; lia]. cbn [Argparse.scan].
    intros H%finish_Exit. now right; right.
  - destruct toks as [|t rest]; cbn [Argparse.scan].
    { intros H%finish_Exit. now right; right. }
    cbn [length] in Hlen.
    destruct (String.eqb t "--"). { intros H%after_separator_Exit. now right. }
    unfold Argparse.usage, Argparse.store_int.
    destruct (Argparse.parse_optional t) as [|a [v|]| |].
    + destruct rest as [|t' rest']; [apply IH; cbn; lia|].
      destruct (String.eqb t' "--"); [|apply IH; lia].
      intros H%after_separator_Exit. now right.
    + destruct a; try (intros [= <- _]; now right; right).
      * destruct (Argparse.int_of_string v); [apply IH; lia|intros [= <- _]; now right; right].
      * destruct (Argparse.help_cluster t v); intros [= <- _]; [now left|now right; right].
    + destruct a.
      * destruct rest as [|v rest']; [intros [= <- _]; now right; right|].
        destruct (Argparse.is_argument v); [|intros [= <- _]; now right; right].
        destruct (Argparse.int_of_string v); [|intros [= <- _]; now right; right].
        apply IH. cbn [length] in Hlen. lia.
      * apply IH. lia.
      * apply IH. lia.
      * intros [= <- _]. now left.
    + intros [= <- _]. now right; right.
    + apply IH. lia.
Qed.

Lemma parser_exit cpu_count argv status message :
  configure_argument_parser cpu_count argv = inr (status, message) ->
  status = 0 \/ status = 1 \/ status = 2.
Proof.
  unfold configure_argument_parser, Argparse.parse_args, Argparse.usage.
  destruct (existsb _ _); [intros [= <- _]; now right; right|].
  destruct (Argparse.scan argv _ [] false) as [ns|st msg] eqn:E; [discriminate|].
  intros [= <- _]. now apply (scan_Exit (length argv)) in E.
Qed.

End CommandLineProperties.

(** ** The run as a whole *)

Section RunProperties.

Context {Image World : Type} (env : Env Image World).

Implicit Types (config : Config) (w : World).

(** the state in which a run starts *)
Local Abbreviation start w := {| world := w; log := @nil (Event Image) |}.

(** what the script does once the validation has passed and the pool
    was built, as an equation *)
Lemma script_runs_the_pool pick config w config' s1 :
  check_config env config (start w) = (Normal config', s1) ->
  0 < NB_WORKERS config ->
  script env pick config (start w)
  = (let '(futs, s2) :=
       run_pool env pick (length (discovered env config w)) (normalized config)
                (discovered env config w) []
                {| world := w; log := [validation_glob config; discovery_glob env config] |} in
     (Normal futs, {| world := world s2; log := log s2 ++ [EvWrite "Done."] |})).
Proof.
  intros Hcheck Hworkers.
  apply check_config_normal in Hcheck as Hfacts. destruct Hfacts as (-> & -> & _).
  unfold script, bind at 1. rewrite Hcheck.
  unfold bind at 1, glob. cbn [world log emit app].
  unfold bind at 1, dispatch, bind at 1, ThreadPoolExecutor.
  cbn [NB_WORKERS normalized set_DESTINATION_FILE_TYPE set_SOURCE_FILE_TYPE].
  destruct (Z.leb_spec (NB_WORKERS config) 0) as [?|_]; [lia|]. unfold ret at 1.
  cbn [SOURCE_FOLDER SOURCE_FILE_TYPE IS_RECURSIVE normalized
       set_DESTINATION_FILE_TYPE set_SOURCE_FILE_TYPE].
  fold (discovered env config w). fold (normalized config).
  unfold validation_glob, discovery_glob.
  destruct (run_pool env pick _ _ _ _ _) as [futs s2].
  reflexivity.
Qed.

(** X16. The exit status of a run is 0, 1 or 2, and a run that ends
    with status 2, a usage error of the parser, has called neither the
    file system nor the codec. *)
Theorem exit_status_is_0_1_or_2 cpu_count pick argv w :
  (exit_status (main env cpu_count pick argv w) = 0
   \/ exit_status (main env cpu_count pick argv w) = 1
   \/ exit_status (main env cpu_count pick argv w) = 2)
  /\ (exit_status (main env cpu_count pick argv w) = 2 ->
      calls (main env cpu_count pick argv w) = []
      /\ futures (main env cpu_count pick argv w) = []
      /\ final_world (main env cpu_count pick argv w) = w).
Proof.
  unfold main.
  destruct (configure_argument_parser cpu_count argv) as [config|[status message]] eqn:E.
  - destruct (script env pick config _) as [[futs|e] s]; cbn [exit_status];
      (split; [auto|discriminate]).
  - cbn [exit_status calls futures final_world].
    destruct (parser_exit _ _ _ _ E) as [->|[->| ->]]; auto.
Qed.

(** X17. A worker count of zero or less passes the validation, which
    does not look at it, and is refused by the pool: the run ends with
    status 1 after the two discoveries, no task has run and [Done.]
    is not written. *)
Theorem refused_pool_ends_the_run cpu_count pick argv w config config' s1 :
  configure_argument_parser cpu_count argv = inl config ->
  check_config env config (start w) = (Normal config', s1) ->
  NB_WORKERS config <= 0 ->
  main env cpu_count pick argv w
  = mkProcess 1 ["max_workers must be greater than 0"]
              [validation_glob config; discovery_glob env config] [] w.
Proof.
  intros Hparse Hcheck Hworkers.
  apply check_config_normal in Hcheck as Hfacts. destruct Hfacts as (-> & -> & _).
  unfold main. rewrite Hparse, (script_pool_refused env pick config w Hcheck Hworkers).
  reflexivity.
Qed.

Lemma convert_opens_once src config w :
  only is_open (log (run (convert env src config) w).2) = [EvOpen src].
Proof.
  unfold run, convert, bind, with_image, try_except, Image_open, exists_, tqdm_write,
    Image_save, __handle_jpg_transparency, Image_convert, ret, emit.
  cbn [world log].
  repeat match goal with
    | |- context [pil_open ?e ?p ?w] =>
        destruct (pil_open e p w) as [[?|?] ?]; cbn [world log]
    | |- context [pil_save ?e ?i ?d ?f ?q ?o ?p ?w] =>
        destruct (pil_save e i d f q o p w) as [[?|?] ?]; cbn [world log]
    | |- context [pil_convert ?e ?i ?m ?w] =>
        destruct (pil_convert e i m w) as [[?|?] ?]; cbn [world log]
    | |- context [path_exists ?e ?p ?w] =>
        destruct (path_exists e p w); cbn [world log]
    | |- context [isinstance_OSError ?c] =>
        destruct (isinstance_OSError c); cbn [world log]
    | |- context [isinstance_Exception ?c] =>
        destruct (isinstance_Exception c); cbn [world log]
    | |- context [Str.contains ?a ?b] =>
        destruct (Str.contains a b); cbn [world log]
    end; reflexivity.
Qed.

(** the opens of the pool's log are those of its futures, in
    completion order *)
Lemma run_pool_opens pick n config :
  forall pending completed s,
    n = length pending ->
    only is_open (log s) = map EvOpen (map fut_file completed) ->
    only is_open (log (run_pool env pick n config pending completed s).2)
    = map EvOpen (map fut_file (run_pool env pick n config pending completed s).1).
Proof.
  induction n as [|n IH]; intros pending completed s Hn Hs; [exact Hs|].
  cbn [run_pool].
  set (i := (pick (length completed) mod length pending)%nat).
  assert (Hi : (i < length pending)%nat)
    by (subst i; apply Nat.mod_upper_bound; lia).
  destruct (lookup_lt_is_Some_2 _ _ Hi) as [file Hfile]. rewrite Hfile.
  unfold work_item. rewrite convert_frame.
  pose proof (convert_opens_once file config (world s)) as Hopen.
  destruct (run (convert env file config) (world s)) as [r s1]. cbn [snd] in Hopen.
  apply IH.
  - rewrite length_delete by eauto. lia.
  - cbn [log]. unfold only in *. rewrite List.filter_app, Hs, Hopen, !map_app.
    reflexivity.
Qed.

(** X18. In a run that got past the validation and built its pool,
    every discovered file is opened exactly once, and nothing else is
    opened: the opens of the run are, up to their order, the
    discovered files. *)
Theorem every_file_is_opened_once cpu_count pick argv w config config' s1 :
  configure_argument_parser cpu_count argv = inl config ->
  check_config env config (start w) = (Normal config', s1) ->
  0 < NB_WORKERS config ->
  only is_open (calls (main env cpu_count pick argv w))
  ≡ₚ map EvOpen (discovered env config w).
Proof.
  intros Hparse Hcheck Hworkers.
  assert (Hfirst :
    only is_open (calls (main env cpu_count pick argv w))
    = map EvOpen (map fut_file (futures (main env cpu_count pick argv w)))).
  { unfold main. rewrite Hparse, (script_runs_the_pool pick _ _ _ _ Hcheck Hworkers).
    match goal with
    | |- context [run_pool env pick ?n ?c ?p ?d ?s] =>
        pose proof (run_pool_opens pick n c p d s eq_refl eq_refl) as Hopens;
        destruct (run_pool env pick n c p d s) as [futs s2]
    end.
    cbn [fst snd calls futures log] in *. unfold only in *.
    rewrite List.filter_app, Hopens. cbn. now rewrite app_nil_r. }
  rewrite Hfirst.
  apply check_config_normal in Hcheck as Hfacts. destruct Hfacts as (-> & -> & _).
  destruct (script_after_validation env pick config w Hcheck Hworkers)
    as [futs [s' [Hscript [Hperm _]]]].
  unfold main. rewrite Hparse, Hscript. cbn [futures]. now rewrite Hperm.
Qed.

(** X19. The pool is built before anything is submitted.  Given no
    file at all and a positive worker count, [dispatch] returns no
    future and leaves the state as it found it; given a worker count
    of zero or less it raises [ValueError] whatever the files, and no
    task has run. *)
Theorem dispatch_of_no_file pick config (s : State Image World) :
  (0 < NB_WORKERS config -> dispatch env pick config [] s = (Normal [], s))
  /\ (NB_WORKERS config <= 0 ->
      forall files,
        dispatch env pick config files s
        = (Raised (mkExc ValueError "max_workers must be greater than 0"), s)).
Proof.
  unfold dispatch, bind, ThreadPoolExecutor, raise, ret. split.
  - intros H. destruct (Z.leb_spec (NB_WORKERS config) 0) as [?|_]; [lia|reflexivity].
  - intros H files. destruct (Z.leb_spec (NB_WORKERS config) 0) as [_|?]; [reflexivity|lia].
Qed.

(** X20. The validation looks for files under the folder as given,
    the main program under its absolute form: for a source folder
    that is absolute the two discoveries are the same call, so a run
    that got past the validation has at least one task. *)
Theorem absolute_source_folder_has_tasks cpu_count pick argv w config config' s1 :
  configure_argument_parser cpu_count argv = inl config ->
  check_config env config (start w) = (Normal config', s1) ->
  0 < NB_WORKERS config ->
  Pathlib.is_absolute (SOURCE_FOLDER config) = true ->
  discovery_glob env config = validation_glob config
  /\ futures (main env cpu_count pick argv w) <> [].
Proof.
  intros Hparse Hcheck Hworkers Habs.
  assert (Hsame : Pathlib.absolute (getcwd env) (SOURCE_FOLDER config) = SOURCE_FOLDER config)
    by (unfold Pathlib.absolute; now rewrite Habs).
  split; [unfold discovery_glob, validation_glob; now rewrite Hsame|].
  apply check_config_normal in Hcheck as Hfacts.
  destruct Hfacts as (-> & -> & _ & _ & _ & _ & Hglob & _).
  destruct (script_after_validation env pick config w Hcheck Hworkers)
    as [futs [s' [Hscript [Hperm _]]]].
  unfold main. rewrite Hparse, Hscript. cbn [futures world] in *.
  intros ->. cbn [map] in Hperm. apply Permutation_nil in Hperm.
  unfold discovered in Hperm. rewrite Hsame in Hperm.
  apply map_eq_nil in Hperm. contradiction.
Qed.

End RunProperties.

(** ** Paths, back and forth *)

Section PathRoundTrip.

Lemma root_Path_str p :
  Pathlib.wf_path p = true -> root (Pathlib.Path (Pathlib.str p)) = root p.
Proof.
  destruct p as [r l]. unfold Pathlib.wf_path. cbn [root names].
  intros [Hr Hl]%andb_true_iff.
  unfold Pathlib.Path, Pathlib.parse_root. cbn [root].
  destruct l as [|x l].
  - destruct (wf_root_cases _ Hr) as [->|[->| ->]]; reflexivity.
  - cbn [forallb] in Hl. apply andb_true_iff in Hl as [Hx _].
    pose proof (leading_seps_join x l "" Hx) as Hlead. rewrite app_empty_r in Hlead.
    destruct (wf_root_cases _ Hr) as [->|[->| ->]].
    + change (Pathlib.str (mkPath "" (x :: l))) with (Str.join_sep (x :: l)).
      now rewrite Hlead.
    + change (Pathlib.str (mkPath "/" (x :: l))) with (String "/" (Str.join_sep (x :: l))).
      now rewrite leading_seps_slash, Hlead.
    + change (Pathlib.str (mkPath "//" (x :: l)))
        with (String "/" (String "/" (Str.join_sep (x :: l)))).
      now rewrite !leading_seps_slash, Hlead.
Qed.

(** X21. Printing a path and parsing it again gives the path back:
    [Path(str(p)) = p] for every path the parser can build, which is
    what lets line 83 go through a string and line 109 through the
    names [glob] returns. *)
Theorem Path_str_round_trip :
  (forall p, Pathlib.wf_path p = true -> Pathlib.Path (Pathlib.str p) = p)
  /\ (forall s, Pathlib.Path (Pathlib.str (Pathlib.Path s)) = Pathlib.Path s).
Proof.
  assert (H : forall p, Pathlib.wf_path p = true -> Pathlib.Path (Pathlib.str p) = p).
  { intros p Hp. pose proof (root_Path_str p Hp) as Hr.
    pose proof (keeps_split_str p Hp) as Hn.
    destruct p as [r l]. unfold Pathlib.Path in *. cbn [root names] in *.
    now rewrite Hr, Hn. }
  split; [exact H|]. intros s. apply H, Path_wf.
Qed.

End PathRoundTrip.

(** ** The further properties on the small world *)

Section MoreRuns.

Abbreviation E := (Demo.env "/home/user").
Abbreviation in_ f := (Pathlib.Path ("/in/" +:+ f)).
Abbreviation out_ f := (Pathlib.Path ("/out/" +:+ f)).
Abbreviation jpeg im f := (EvSave (Demo.mkImage im) (out_ f) (Some "JPEG") 80 true true).
Abbreviation to_jpg := (Demo.config ".jpg").
Abbreviation begin := {| world := Demo.pictures; log := @nil (Event Demo.Image) |}.

(** the configuration as the parser hands it over, extensions bare *)
Abbreviation parsed n src dst :=
  (mkConfig n (Pathlib.Path "/out") dst (Pathlib.Path "/in") src true 80 true true).

Abbreviation no_mode_P := (mkExc OSError "cannot write mode P as JPEG").

(** the palette picture: two saves fail, the image is closed all the same *)
Lemma opened_image_is_closed_witness :
  exists before w',
    (run (convert E (in_ "d.png") to_jpg) Demo.pictures).2
    = {| world := pil_close E (Demo.mkImage "P") w';
         log := before ++ [EvClose (Demo.mkImage "P")] |}
    /\ only is_close before = [].
Proof.
  apply (opened_image_is_closed E (in_ "d.png") to_jpg Demo.pictures
           (Demo.mkImage "P") Demo.pictures).
  reflexivity.
Defined.


Lemma fresh_destination_is_written_silently_witness :
  run (convert E (in_ "b.png") to_jpg) Demo.pictures
  = (Normal tt,
     {| world := pil_close E (Demo.mkImage "L")
                   (Demo.write_file "/out/b.jpg" (Demo.Picture "L") Demo.pictures);
        log := [EvOpen (in_ "b.png"); save_call E (Demo.mkImage "L") (in_ "b.png") to_jpg;
                EvClose (Demo.mkImage "L")] |}).
Proof.
  apply (fresh_destination_is_written_silently E (in_ "b.png") to_jpg Demo.pictures
           (Demo.mkImage "L") Demo.pictures); reflexivity.
Defined.


(** a source with two dots in its name *)
Lemma destination_suffix_is_the_extension_witness :
  Pathlib.suffix (dest_path_of E (in_ "a.b.png") to_jpg) = ".jpg".
Proof.
  apply (proj1 (destination_suffix_is_the_extension E (in_ "a.b.png") to_jpg "jpg"
                  Demo.pictures eq_refl eq_refl eq_refl ltac:(discriminate)
                  eq_refl ltac:(discriminate) eq_refl eq_refl)).
Defined.

Lemma validated_configuration_is_sound_witness :
  Str.startswith (SOURCE_FILE_TYPE (normalized (parsed 4 "png" "jpg"))) "." = true
  /\ Str.startswith (DESTINATION_FILE_TYPE (normalized (parsed 4 "png" "jpg"))) "." = true
  /\ is_Some (registered_extensions E !! SOURCE_FILE_TYPE (normalized (parsed 4 "png" "jpg")))
  /\ is_Some (registered_extensions E
                !! DESTINATION_FILE_TYPE (normalized (parsed 4 "png" "jpg"))).
Proof.
  apply (validated_configuration_is_sound E (parsed 4 "png" "jpg") begin
           (normalized (parsed 4 "png" "jpg"))
           (emit (validation_glob (parsed 4 "png" "jpg")) begin) eq_refl).
Defined.

Lemma check_config_touches_two_fields_only_witness :
  NB_WORKERS (normalized (parsed 4 "png" "jpg")) = NB_WORKERS (parsed 4 "png" "jpg")
  /\ SOURCE_FOLDER (normalized (parsed 4 "png" "jpg")) = SOURCE_FOLDER (parsed 4 "png" "jpg").
Proof.
  pose proof (proj2 (check_config_touches_two_fields_only E (parsed 4 "png" "jpg") begin)
                (normalized (parsed 4 "png" "jpg")) eq_refl) as H.
  exact (conj (proj1 H) (proj1 (proj2 H))).
Defined.

Lemma check_config_passes_again_witness :
  check_config E (normalized (parsed 4 "png" "jpg"))
               (emit (validation_glob (parsed 4 "png" "jpg")) begin)
  = (Normal (normalized (parsed 4 "png" "jpg")),
     emit (validation_glob (normalized (parsed 4 "png" "jpg")))
          (emit (validation_glob (parsed 4 "png" "jpg")) begin)).
Proof.
  apply (check_config_passes_again E (parsed 4 "png" "jpg") begin). reflexivity.
Defined.

(** a file [f.xyz] is in the source folder: the discovery of line 50
    finds it, the destination format is known, and the run stops at
    line 55 *)
Lemma unsupported_source_stops_the_run_witness :
  (exit_status (main E (Some 4) (fun _ => O) ["/in"; "/out"; "xyz"; "jpg"]
                     Demo.unknown_format) = 1
   /\ futures (main E (Some 4) (fun _ => O) ["/in"; "/out"; "xyz"; "jpg"]
                    Demo.unknown_format) = []
   /\ Forall (fun ev => is_glob ev = true)
             (calls (main E (Some 4) (fun _ => O) ["/in"; "/out"; "xyz"; "jpg"]
                          Demo.unknown_format)))
  /\ main E (Some 4) (fun _ => O) ["/in"; "/out"; "xyz"; "jpg"] Demo.unknown_format
     = mkProcess 1 ["Error: Source image format is not supported"]
                 [EvGlob "/in/**/*.xyz" true] [] Demo.unknown_format.
Proof.
  split; [|reflexivity].
  apply (unsupported_source_stops_the_run E (Some 4) (fun _ => O)
           ["/in"; "/out"; "xyz"; "jpg"] Demo.unknown_format (parsed 8 "xyz" "jpg")
           eq_refl eq_refl).
Defined.

(** no JPEG file in the source folder *)
Lemma empty_source_folder_stops_the_run_witness :
  main E (Some 4) (fun _ => O) ["/in"; "/out"; "jpg"; "png"] Demo.pictures
  = mkProcess 1 ["Error: Source folder does not contain any file of type .jpg"]
              [EvGlob "/in/**/*.jpg" true] [] Demo.pictures.
Proof.
  apply (empty_source_folder_stops_the_run E (Some 4) (fun _ => O)
           ["/in"; "/out"; "jpg"; "png"] Demo.pictures (parsed 8 "jpg" "png"));
    reflexivity.
Defined.

Lemma flags_are_always_on_witness :
  OPTIMIZE (parsed 8 "png" "jpg") = true
  /\ PROGRESSIVE (parsed 8 "png" "jpg") = true
  /\ IS_RECURSIVE (parsed 8 "png" "jpg") = true.
Proof.
  apply (flags_are_always_on (Some 4) ["--optimize"; "/in"; "/out"; "png"; "jpg"]).
  reflexivity.
Defined.

Lemma parsed_folders_are_well_formed_witness :
  Pathlib.wf_path (SOURCE_FOLDER (parsed 8 "png" "jpg")) = true
  /\ Pathlib.wf_path (DESTINATION_FOLDER (parsed 8 "png" "jpg")) = true.
Proof.
  apply (parsed_folders_are_well_formed (Some 4) ["/in"; "/out"; "png"; "jpg"]).
  reflexivity.
Defined.

Lemma default_worker_count_bounds_witness :
  NB_WORKERS (parsed 32 "png" "jpg") = Z.min 32 (Argparse.cpu_count_or_1 (Some 64) + 4)
  /\ 5 <= NB_WORKERS (parsed 32 "png" "jpg") <= 32.
Proof.
  apply (default_worker_count_bounds (Some 64) ["/in"; "/out"; "png"; "jpg"]).
  - discriminate.
  - repeat constructor.
  - reflexivity.
Defined.

(** a command line that is too short *)
Lemma exit_status_is_0_1_or_2_witness :
  calls (main E (Some 4) (fun _ => O) ["/in"; "/out"] Demo.pictures) = []
  /\ futures (main E (Some 4) (fun _ => O) ["/in"; "/out"] Demo.pictures) = []
  /\ final_world (main E (Some 4) (fun _ => O) ["/in"; "/out"] Demo.pictures) = Demo.pictures.
Proof.
  apply (proj2 (exit_status_is_0_1_or_2 E (Some 4) (fun _ => O) ["/in"; "/out"]
                  Demo.pictures)).
  reflexivity.
Defined.

Lemma refused_pool_ends_the_run_witness :
  main E (Some 4) (fun _ => O) ["/in"; "/out"; "png"; "jpg"; "--nb-workers"; "0"]
       Demo.pictures
  = mkProcess 1 ["max_workers must be greater than 0"]
              [EvGlob "/in/**/*.png" true; EvGlob "/in/**/*.png" true] [] Demo.pictures.
Proof.
  eapply (refused_pool_ends_the_run E (Some 4) (fun _ => O)
            ["/in"; "/out"; "png"; "jpg"; "--nb-workers"; "0"] Demo.pictures
            (parsed 0 "png" "jpg")).
  - reflexivity.
  - reflexivity.
  - discriminate.
Defined.

(** the last pending file first: five opens for five files *)
Lemma every_file_is_opened_once_witness :
  only is_open (calls (main E (Some 4) (fun n => (4 - n)%nat)
                            ["/in"; "/out"; "png"; "jpg"] Demo.pictures))
  ≡ₚ [EvOpen (in_ "a.png"); EvOpen (in_ "b.png"); EvOpen (in_ "c.png");
      EvOpen (in_ "d.png"); EvOpen (in_ "e.png")].
Proof.
  eapply (every_file_is_opened_once E (Some 4) (fun n => (4 - n)%nat)
            ["/in"; "/out"; "png"; "jpg"] Demo.pictures (parsed 8 "png" "jpg"));
    reflexivity.
Defined.

Lemma dispatch_of_no_file_witness :
  dispatch E (fun _ => O) to_jpg [] begin = (Normal [], begin).
Proof.
  apply (proj1 (dispatch_of_no_file E (fun _ => O) to_jpg begin)). reflexivity.
Defined.

Lemma absolute_source_folder_has_tasks_witness :
  futures (main E (Some 4) (fun _ => O) ["/in"; "/out"; "png"; "jpg"] Demo.pictures) <> [].
Proof.
  eapply (proj2 (absolute_source_folder_has_tasks E (Some 4) (fun _ => O)
                   ["/in"; "/out"; "png"; "jpg"] Demo.pictures (parsed 8 "png" "jpg")
                   _ _ eq_refl eq_refl eq_refl eq_refl)).
Defined.

Lemma Path_str_round_trip_witness :
  Pathlib.Path (Pathlib.str (mkPath "//" ["srv"; "in"; "a.png"]))
  = mkPath "//" ["srv"; "in"; "a.png"].
Proof.
  apply (proj1 Path_str_round_trip). reflexivity.
Defined.

End MoreRuns.
